(** * OAuth2 credential supplier (AuthorizerV2) of go-twitter-pro

    A shallow embedding of [oauth2.go] (package [twitter]): the
    [AuthorizerV2] struct, its constructor and its operations [Add],
    [getValidToken], [refreshAccessToken], [UpdateTokens], [GetTokens] and
    [ForceRefresh], followed by the properties of the credential supplier.

    Modelling conventions.
    - [time.Time] is an instant on the time line, a [Z] counting
      nanoseconds; [time.Duration] is Go's [int64] count of nanoseconds,
      with its wrap-around written out ([wrap64]).
    - Go's [int] is the 64-bit integer of the usual targets.
    - An [error] is the message its [Error()] method returns.
    - The program runs one goroutine at a time: the lock [mu] is not
      modelled, the goroutine started for the callback is recorded in the
      world, not run.
    - [net/http] is the environment: whether the token URL parses and what
      the transport answers are given by an [Env]; the requests handed to
      the transport are logged in the world. *)

From Stdlib Require Import ZArith String Ascii List Lia DecimalString.
From stdpp Require Import base option strings gmap.

Local Open Scope string_scope.
Local Open Scope Z_scope.

(** ** Machine integers and time *)

Definition wrap64 (z : Z) : Z := (z + 2 ^ 63) mod 2 ^ 64 - 2 ^ 63.

Definition minInt64 : Z := - 2 ^ 63.
Definition maxInt64 : Z := 2 ^ 63 - 1.

Definition inInt64 (z : Z) : bool := (minInt64 <=? z) && (z <=? maxInt64).

Module time.

Definition Time := Z.
Definition Duration := Z.

Definition Nanosecond : Duration := 1.
Definition Second : Duration := 1000000000.
Definition Minute : Duration := 60 * Second.
Definition Hour : Duration := 60 * Minute.

(** [Duration(n) * d] on int64. *)
Definition mul (a b : Duration) : Duration := wrap64 (a * b).

(** [t.Add(d)]. *)
Definition Add (t : Time) (d : Duration) : Time := t + d.

(** [t.Before(u)]. *)
Definition Before (t u : Time) : bool := t <? u.

End time.

(** [%d] of [fmt]. *)
Definition itoa (z : Z) : string := NilZero.string_of_int (Z.to_int z).

(** ** JSON values, as [encoding/json] scans them *)

#[local] Set Warnings "-register-all".

Inductive json : Type :=
| JNull
| JBool (b : bool)
| JInt (z : Z)                  (* a number literal without fraction or exponent *)
| JFloat (lit : string)         (* any other number literal *)
| JString (s : string)
| JArray (items : list json)
| JObject (members : list (string * json)).

(** What the decoder finds in a response body: a first JSON value, or a
    scanner error (syntax error, empty or truncated input). *)
Inductive scanned : Type :=
| Malformed (err : string)
| Value (j : json).

(** The word [encoding/json] uses for a value in an [UnmarshalTypeError]. *)
Definition kindOf (j : json) : string :=
  match j with
  | JNull => "null"
  | JBool _ => "bool"
  | JInt z => "number " +:+ itoa z
  | JFloat lit => "number " +:+ lit
  | JString _ => "string"
  | JArray _ => "array"
  | JObject _ => "object"
  end.

(** ** OAuth2TokenResponse and its decoding *)

Record OAuth2TokenResponse : Type := mkTokenResponse {
  AccessToken : string;
  RefreshToken : string;
  TokenType : string;
  ExpiresIn : Z;
  Scope : string
}.

(** The zero value [var tokenResp OAuth2TokenResponse]. *)
Definition zeroTokenResponse : OAuth2TokenResponse :=
  mkTokenResponse "" "" "" 0 "".

(** Key folding of [encoding/json]: a member name selects a struct field
    when the two are equal under Unicode simple case folding. On the
    names of this struct that is ASCII case folding, plus the two
    non-ASCII letters that fold to ASCII ones: U+017F (long s, bytes
    C5 BF) and U+212A (Kelvin sign, bytes E2 84 AA). *)
Definition upperAscii (c : ascii) : ascii :=
  let n := nat_of_ascii c in
  if ((97 <=? n) && (n <=? 122))%nat then ascii_of_nat (n - 32) else c.

Fixpoint foldBytes (l : list ascii) : list ascii :=
  match l with
  | [] => []
  | c :: r =>
      match nat_of_ascii c, r with
      | 197%nat, d :: r' =>
          if (nat_of_ascii d =? 191)%nat then "S"%char :: foldBytes r'
          else c :: foldBytes r
      | 226%nat, d :: r1 =>
          match r1 with
          | e :: r' =>
              if ((nat_of_ascii d =? 132) && (nat_of_ascii e =? 170))%nat
              then "K"%char :: foldBytes r'
              else c :: foldBytes r
          | [] => c :: foldBytes r
          end
      | _, _ => upperAscii c :: foldBytes r
      end
  end.

Definition foldName (s : string) : list ascii :=
  foldBytes (list_ascii_of_string s).

Definition sameKey (key name : string) : bool :=
  bool_decide (foldName key = foldName name).

Inductive field : Type :=
| FAccessToken | FRefreshToken | FTokenType | FExpiresIn | FScope.

Definition fieldName (f : field) : string :=
  match f with
  | FAccessToken => "access_token"
  | FRefreshToken => "refresh_token"
  | FTokenType => "token_type"
  | FExpiresIn => "expires_in"
  | FScope => "scope"
  end.

Definition fieldType (f : field) : string :=
  match f with
  | FExpiresIn => "int"
  | _ => "string"
  end.

Definition allFields : list field :=
  [FAccessToken; FRefreshToken; FTokenType; FExpiresIn; FScope].

Definition findField (key : string) : option field :=
  List.find (fun f => sameKey key (fieldName f)) allFields.

Definition typeError (f : field) (j : json) : string :=
  "json: cannot unmarshal " +:+
  (match j, f with
   | JInt _, FExpiresIn => kindOf j
   | JFloat _, FExpiresIn => kindOf j
   | JInt _, _ => "number"
   | JFloat _, _ => "number"
   | _, _ => kindOf j
   end) +:+
  " into Go struct field OAuth2TokenResponse." +:+ fieldName f +:+
  " of type " +:+ fieldType f.

Definition setString (f : field) (s : string) (r : OAuth2TokenResponse)
  : OAuth2TokenResponse :=
  match f with
  | FAccessToken => mkTokenResponse s (RefreshToken r) (TokenType r) (ExpiresIn r) (Scope r)
  | FRefreshToken => mkTokenResponse (AccessToken r) s (TokenType r) (ExpiresIn r) (Scope r)
  | FTokenType => mkTokenResponse (AccessToken r) (RefreshToken r) s (ExpiresIn r) (Scope r)
  | FScope => mkTokenResponse (AccessToken r) (RefreshToken r) (TokenType r) (ExpiresIn r) s
  | FExpiresIn => r
  end.

Definition setExpiresIn (n : Z) (r : OAuth2TokenResponse) : OAuth2TokenResponse :=
  mkTokenResponse (AccessToken r) (RefreshToken r) (TokenType r) n (Scope r).

(** One member of the object decoded into the struct: [null] leaves the
    field alone, a value of the field's type is stored, anything else
    leaves the field alone and reports a type error. *)
Definition decodeField (f : field) (j : json) (r : OAuth2TokenResponse)
  : OAuth2TokenResponse * option string :=
  match j, f with
  | JNull, _ => (r, None)
  | JInt z, FExpiresIn =>
      if inInt64 z then (setExpiresIn z r, None) else (r, Some (typeError f j))
  | JString s, FExpiresIn => (r, Some (typeError f j))
  | JString s, _ => (setString f s r, None)
  | _, _ => (r, Some (typeError f j))
  end.

(** The members are decoded in order, a later member overwriting an
    earlier one; unknown members are skipped; the first error is the one
    reported, after all members have been visited. *)
Fixpoint decodeMembers (ms : list (string * json)) (r : OAuth2TokenResponse)
  (err : option string) : OAuth2TokenResponse * option string :=
  match ms with
  | [] => (r, err)
  | (key, j) :: rest =>
      match findField key with
      | None => decodeMembers rest r err
      | Some f =>
          let '(r', e) := decodeField f j r in
          decodeMembers rest r' (match err with Some _ => err | None => e end)
      end
  end.

(** [json.NewDecoder(resp.Body).Decode(&tokenResp)] on the zero value:
    [inr] the decoded struct, [inl] the decoder's error. *)
Definition Decode (body : scanned) : string + OAuth2TokenResponse :=
  match body with
  | Malformed err => inl err
  | Value JNull => inr zeroTokenResponse
  | Value (JObject ms) =>
      match decodeMembers ms zeroTokenResponse None with
      | (r, None) => inr r
      | (_, Some e) => inl e
      end
  | Value j =>
      inl ("json: cannot unmarshal " +:+
           (match j with JInt _ | JFloat _ => "number" | _ => kindOf j end) +:+
           " into Go value of type twitter.OAuth2TokenResponse")
  end.

(** ** net/http: requests, responses and the environment *)

(** A [context.Context], known by its identity; whether and when it is
    cancelled shows in what the transport answers. *)
Definition Context : Type := nat.

(** [http.Header]: each key holds the list of its values. *)
Abbreviation Header := (gmap string (list string)).

Module header.

Definition values (h : Header) (key : string) : list string :=
  default [] (h !! key).

(** [h.Add(key, value)] appends to the values of the key. *)
Definition Add (h : Header) (key value : string) : Header :=
  <[key := (values h key ++ [value])%list]> h.

(** [h.Get(key)] is the first value of the key, [""] without one. *)
Definition Get (h : Header) (key : string) : string :=
  match values h key with
  | [] => ""
  | v :: _ => v
  end.

End header.

(** The request an API call hands to the authorizer. *)
Record Request : Type := mkRequest {
  reqCtx : Context;
  reqMethod : string;
  reqURL : string;
  reqHeader : Header
}.

(** The request of a refresh exchange, by what the code puts into it;
    percent-encoding of the form and base64 of the basic credentials are
    left to [net/url] and [net/http]. *)
Record TokenRequest : Type := mkTokenRequest {
  trCtx : Context;
  trMethod : string;
  trURL : string;
  trForm : list (string * string);
  trContentType : string;
  trBasicAuth : string * string
}.

Record Response : Type := mkResponse {
  StatusCode : Z;
  BodyText : string;             (* what [buf.ReadFrom(resp.Body)] reads *)
  BodyJSON : scanned             (* what the JSON decoder reads from it *)
}.

Definition StatusOK : Z := 200.

(** The outcome of [client.Do]: an error of the transport (unreachable
    host, cancelled or expired context, ...) or a response. *)
Inductive RoundTrip : Type :=
| DoError (cause : string)
| DoResponse (resp : Response).

Record Reply : Type := mkReply {
  outcome : RoundTrip;
  arrival : time.Time            (* the clock when [Do] returns *)
}.

Record Env : Type := mkEnv {
  (* [http.NewRequestWithContext]: the error of parsing the URL, if any *)
  newRequestError : string -> option string;
  (* [client.Do], given the requests sent before, the request and the
     clock at the time of sending *)
  Do : list TokenRequest -> TokenRequest -> time.Time -> Reply
}.

(** ** AuthorizerV2 *)

(** A [TokenRefreshCallback], known by its identity. *)
Definition TokenRefreshCallback : Type := nat.

Record AuthorizerV2 : Type := mkAuthorizerV2 {
  accessToken : string;
  refreshToken : string;
  clientID : string;
  clientSecret : string;
  tokenURL : string;
  callback : option TokenRefreshCallback;    (* [None] is [nil] *)
  expiresAt : time.Time
}.

(** Assignments to the fields of [*o]. *)
Definition set_accessToken (v : string) (o : AuthorizerV2) : AuthorizerV2 :=
  mkAuthorizerV2 v (refreshToken o) (clientID o) (clientSecret o) (tokenURL o)
    (callback o) (expiresAt o).

Definition set_refreshToken (v : string) (o : AuthorizerV2) : AuthorizerV2 :=
  mkAuthorizerV2 (accessToken o) v (clientID o) (clientSecret o) (tokenURL o)
    (callback o) (expiresAt o).

Definition set_clientID (v : string) (o : AuthorizerV2) : AuthorizerV2 :=
  mkAuthorizerV2 (accessToken o) (refreshToken o) v (clientSecret o) (tokenURL o)
    (callback o) (expiresAt o).

Definition set_clientSecret (v : string) (o : AuthorizerV2) : AuthorizerV2 :=
  mkAuthorizerV2 (accessToken o) (refreshToken o) (clientID o) v (tokenURL o)
    (callback o) (expiresAt o).

Definition set_tokenURL (v : string) (o : AuthorizerV2) : AuthorizerV2 :=
  mkAuthorizerV2 (accessToken o) (refreshToken o) (clientID o) (clientSecret o) v
    (callback o) (expiresAt o).

Definition set_expiresAt (v : time.Time) (o : AuthorizerV2) : AuthorizerV2 :=
  mkAuthorizerV2 (accessToken o) (refreshToken o) (clientID o) (clientSecret o)
    (tokenURL o) (callback o) v.

(** The world an operation runs in: the authorizer [o] points to, the
    clock [time.Now()] reads, the requests handed to the transport so far
    (oldest first) and the callback goroutines started so far. *)
Record World : Type := mkWorld {
  auth : AuthorizerV2;
  now : time.Time;
  sent : list TokenRequest;
  started : list (TokenRefreshCallback * string * string)
}.

Definition withAuth (o : AuthorizerV2) (w : World) : World :=
  mkWorld o (now w) (sent w) (started w).

Definition defaultTokenURL : string := "https://api.twitter.com/2/oauth2/token".

(** [NewAuthorizerV2], at the clock reading [t]. *)
Definition NewAuthorizerV2 (t : time.Time)
  (accessToken' refreshToken' clientID' clientSecret' : string)
  (callback' : option TokenRefreshCallback) : AuthorizerV2 :=
  let auth := mkAuthorizerV2 accessToken' refreshToken' clientID' clientSecret'
                defaultTokenURL callback'
                (time.Add t (time.mul 2 time.Hour)) in
  (* If no refresh capability, don't need client credentials *)
  if bool_decide (refreshToken' = "")
  then set_tokenURL "" (set_clientSecret "" (set_clientID "" auth))
  else auth.

(** ** The operations

    An operation is a function of the world that returns its results and
    the world it leaves. *)

Definition M (A : Type) : Type := World -> A * World.

Definition ret {A} (a : A) : M A := fun w => (a, w).

Definition bind {A B} (m : M A) (k : A -> M B) : M B :=
  fun w => let '(a, w') := m w in k a w'.

Notation "'do' x <- m ; k" := (bind m (fun x => k))
  (at level 10, x pattern, m at level 100, k at level 200).
Notation "'run' m ; k" := (bind m (fun _ => k))
  (at level 10, m at level 100, k at level 200).

Definition getAuth : M AuthorizerV2 := fun w => (auth w, w).

Definition modifyAuth (f : AuthorizerV2 -> AuthorizerV2) : M unit :=
  fun w => (tt, withAuth (f (auth w)) w).

(** [time.Now()]. *)
Definition timeNow : M time.Time := fun w => (now w, w).

(** [go o.callback(a, r)]: the goroutine is started, not waited for. *)
Definition goCallback (cb : TokenRefreshCallback) (a r : string) : M unit :=
  fun w => (tt, mkWorld (auth w) (now w) (sent w) (started w ++ [(cb, a, r)])%list).

Section Operations.

Variable env : Env.

(** [o.client.Do(req)]: the request is logged, the clock moves to the
    time the answer arrives. *)
Definition clientDo (req : TokenRequest) : M RoundTrip :=
  fun w =>
    let r := Do env (sent w) req (now w) in
    (outcome r, mkWorld (auth w) (arrival r) (sent w ++ [req])%list (started w)).

(** [fmt.Errorf] of the code. *)
Definition errNoRefreshToken : string := "no refresh token available".
Definition errCreateRequest (cause : string) : string :=
  "failed to create refresh request: " +:+ cause.
Definition errRefresh (cause : string) : string :=
  "failed to refresh token: " +:+ cause.
Definition errStatus (status : Z) (body : string) : string :=
  "token refresh failed with status " +:+ itoa status +:+ ": " +:+ body.
Definition errDecode (cause : string) : string :=
  "failed to decode token response: " +:+ cause.

(** The request of the exchange: the form ([data.Encode()] sorts it by
    key), the content type and the basic credentials. *)
Definition refreshRequest (ctx : Context) (o : AuthorizerV2)
  (refreshToken' : string) : TokenRequest :=
  let data := [("client_id", clientID o);
               ("grant_type", "refresh_token");
               ("refresh_token", refreshToken')] in
  mkTokenRequest ctx "POST" (tokenURL o) data
    "application/x-www-form-urlencoded" (clientID o, clientSecret o).

(** The reply of the transport to the exchange started in world [w]. *)
Definition exchange (ctx : Context) (refreshToken' : string) (w : World) : Reply :=
  Do env (sent w) (refreshRequest ctx (auth w) refreshToken') (now w).

(** [refreshAccessToken] refreshes the access token using the refresh
    token; it returns the new access token and [None], or [""] and the
    error. *)
Definition refreshAccessToken (ctx : Context) (refreshToken' : string)
  : M (string * option string) :=
  if bool_decide (refreshToken' = "") then ret ("", Some errNoRefreshToken)
  else
    do o <- getAuth ;
    match newRequestError env (tokenURL o) with
    | Some err => ret ("", Some (errCreateRequest err))
    | None =>
        let req := refreshRequest ctx o refreshToken' in
        do rt <- clientDo req ;
        match rt with
        | DoError err => ret ("", Some (errRefresh err))
        | DoResponse resp =>
            if negb (StatusCode resp =? StatusOK)
            then ret ("", Some (errStatus (StatusCode resp) (BodyText resp)))
            else
              match Decode (BodyJSON resp) with
              | inl err => ret ("", Some (errDecode err))
              | inr tokenResp =>
                  (* Update tokens with lock *)
                  run modifyAuth (set_accessToken (AccessToken tokenResp)) ;
                  run (if bool_decide (RefreshToken tokenResp <> "")
                       then modifyAuth (set_refreshToken (RefreshToken tokenResp))
                       else ret tt) ;
                  (* Calculate expiry time *)
                  run (if 0 <? ExpiresIn tokenResp
                       then
                         do t <- timeNow ;
                         modifyAuth (set_expiresAt
                           (time.Add t (time.mul (ExpiresIn tokenResp) time.Second)))
                       else
                         (* Default to 2 hours if no expiry provided *)
                         do t <- timeNow ;
                         modifyAuth (set_expiresAt
                           (time.Add t (time.mul 2 time.Hour)))) ;
                  do o' <- getAuth ;
                  let newAccessToken := accessToken o' in
                  let newRefreshToken := refreshToken o' in
                  (* Call callback if provided *)
                  run (match callback o' with
                       | Some cb => goCallback cb newAccessToken newRefreshToken
                       | None => ret tt
                       end) ;
                  ret (newAccessToken, None)
              end
        end
    end.

(** [getValidToken] returns a valid access token, refreshing if
    necessary. *)
Definition getValidToken (ctx : Context) : M (string * option string) :=
  do o <- getAuth ;
  do t <- timeNow ;
  (* Check if token is still valid (with 5 minute buffer) *)
  if time.Before (time.Add t (time.mul 5 time.Minute)) (expiresAt o)
  then ret (accessToken o, None)
  else
    let refreshToken' := refreshToken o in
    (* Token is expired or about to expire, refresh it *)
    refreshAccessToken ctx refreshToken'.

Definition bearer (token : string) : string := "Bearer " +:+ token.

Definition addAuthorization (token : string) (req : Request) : Request :=
  mkRequest (reqCtx req) (reqMethod req) (reqURL req)
    (header.Add (reqHeader req) "Authorization" (bearer token)).

(** [Add] implements the Authorizer interface; it returns the request
    as it leaves it. *)
Definition Add (req : Request) : M Request :=
  do o <- getAuth ;
  (* If no refresh token, just use access token *)
  if bool_decide (refreshToken o = "")
  then
    let token := accessToken o in
    ret (addAuthorization token req)
  else
    (* OAuth2 mode with refresh capability *)
    do (token, err) <- getValidToken (reqCtx req) ;
    match err with
    | Some _ =>
        (* If we can't refresh, use the current token *)
        do o' <- getAuth ;
        ret (addAuthorization (accessToken o') req)
    | None => ret (addAuthorization token req)
    end.

(** [ForceRefresh] forces a token refresh regardless of expiry time;
    [None] is the [nil] error. *)
Definition ForceRefresh (ctx : Context) : M (option string) :=
  do o <- getAuth ;
  let refreshToken' := refreshToken o in
  if bool_decide (refreshToken' = "") then ret (Some errNoRefreshToken)
  else
    do (_, err) <- refreshAccessToken ctx refreshToken' ;
    ret err.

End Operations.

(** [UpdateTokens] allows manual updating of tokens. *)
Definition UpdateTokens (accessToken' refreshToken' : string) : M unit :=
  run (if bool_decide (accessToken' <> "")
       then modifyAuth (set_accessToken accessToken')
       else ret tt) ;
  (if bool_decide (refreshToken' <> "")
   then modifyAuth (set_refreshToken refreshToken')
   else ret tt).

(** [GetTokens] returns the current tokens. *)
Definition GetTokens : M (string * string) :=
  do o <- getAuth ;
  ret (accessToken o, refreshToken o).

(** ** Sequences of operations *)

(** What a caller, or the passing of time, does to a supplier. *)
Inductive Op : Type :=
| OpAdd (req : Request)
| OpForceRefresh (ctx : Context)
| OpGetTokens
| OpUpdateTokens (accessToken' refreshToken' : string)
| OpExchange (ctx : Context) (refreshToken' : string)   (* a refresh exchange on its own *)
| OpClock (t : time.Time).                               (* the clock moves to [t] *)

Definition runOp (env : Env) (op : Op) (w : World) : World :=
  match op with
  | OpAdd req => snd (Add env req w)
  | OpForceRefresh ctx => snd (ForceRefresh env ctx w)
  | OpGetTokens => snd (GetTokens w)
  | OpUpdateTokens a r => snd (UpdateTokens a r w)
  | OpExchange ctx r => snd (refreshAccessToken env ctx r w)
  | OpClock t => mkWorld (auth w) t (sent w) (started w)
  end.

Definition runOps (env : Env) (ops : list Op) (w : World) : World :=
  fold_left (fun w op => runOp env op w) ops w.

(** ** scopes.go: OAuth2 scopes

    A Go string is a sequence of bytes; [for _, char := range s] walks it
    rune by rune, decoding UTF-8: a well-formed sequence of one to four
    bytes is one rune, any other byte is the rune U+FFFD of width one;
    [string(char)] encodes the rune again, which gives back the bytes of
    a well-formed sequence and EF BF BD for U+FFFD. *)

Definition ScopeTweetRead : string := "tweet.read".
Definition ScopeTweetWrite : string := "tweet.write".
Definition ScopeTweetModerate : string := "tweet.moderate".
Definition ScopeUsersRead : string := "users.read".
Definition ScopeUsersWrite : string := "users.write".
Definition ScopeFollowsRead : string := "follows.read".
Definition ScopeFollowsWrite : string := "follows.write".
Definition ScopeLikeRead : string := "like.read".
Definition ScopeLikeWrite : string := "like.write".
Definition ScopeRetweetWrite : string := "retweet.write".
Definition ScopeListRead : string := "list.read".
Definition ScopeListWrite : string := "list.write".
Definition ScopeBlockRead : string := "block.read".
Definition ScopeBlockWrite : string := "block.write".
Definition ScopeMuteRead : string := "mute.read".
Definition ScopeMuteWrite : string := "mute.write".
Definition ScopeSpaceRead : string := "space.read".
Definition ScopeBookmarkRead : string := "bookmark.read".
Definition ScopeBookmarkWrite : string := "bookmark.write".
Definition ScopeDMRead : string := "dm.read".
Definition ScopeDMWrite : string := "dm.write".
Definition ScopeOfflineAccess : string := "offline.access".

Definition AllScopes : list string :=
  [ScopeTweetRead; ScopeTweetWrite; ScopeTweetModerate; ScopeUsersRead;
   ScopeUsersWrite; ScopeFollowsRead; ScopeFollowsWrite; ScopeLikeRead;
   ScopeLikeWrite; ScopeRetweetWrite; ScopeListRead; ScopeListWrite;
   ScopeBlockRead; ScopeBlockWrite; ScopeMuteRead; ScopeMuteWrite;
   ScopeSpaceRead; ScopeBookmarkRead; ScopeBookmarkWrite; ScopeDMRead;
   ScopeDMWrite; ScopeOfflineAccess].

(** [ScopeString] joins scopes with spaces; [i] is the index of the
    loop. *)
Fixpoint ScopeString_loop (i : nat) (result : string) (scopes : list string)
  : string :=
  match scopes with
  | [] => result
  | scope :: rest =>
      let result := if (0 <? i)%nat then result +:+ " " else result in
      ScopeString_loop (S i) (result +:+ scope) rest
  end.

Definition ScopeString (scopes : list string) : string :=
  ScopeString_loop 0 "" scopes.

(** A continuation byte, 80..BF. *)
Definition isCont (c : ascii) : bool :=
  let n := nat_of_ascii c in ((128 <=? n) && (n <=? 191))%nat.

Definition inRange (lo hi : nat) (c : ascii) : bool :=
  let n := nat_of_ascii c in ((lo <=? n) && (n <=? hi))%nat.

(** The width of the well-formed UTF-8 sequence at the head of [s], 0 if
    there is none (the tables of [unicode/utf8]). *)
Definition runeWidth (s : string) : nat :=
  match s with
  | EmptyString => 0
  | String b0 r =>
      if (nat_of_ascii b0 <? 128)%nat then 1
      else if inRange 194 223 b0 then
        match r with
        | String b1 _ => if isCont b1 then 2 else 0
        | _ => 0
        end
      else if inRange 224 239 b0 then
        match r with
        | String b1 (String b2 _) =>
            if (if (nat_of_ascii b0 =? 224)%nat then inRange 160 191 b1
                else if (nat_of_ascii b0 =? 237)%nat then inRange 128 159 b1
                else isCont b1) && isCont b2
            then 3 else 0
        | _ => 0
        end
      else if inRange 240 244 b0 then
        match r with
        | String b1 (String b2 (String b3 _)) =>
            if (if (nat_of_ascii b0 =? 240)%nat then inRange 144 191 b1
                else if (nat_of_ascii b0 =? 244)%nat then inRange 128 143 b1
                else isCont b1) && isCont b2 && isCont b3
            then 4 else 0
        | _ => 0
        end
      else 0
  end.

Fixpoint takeBytes (n : nat) (s : string) : string :=
  match n, s with
  | S n', String c s' => String c (takeBytes n' s')
  | _, _ => EmptyString
  end.

Fixpoint dropBytes (n : nat) (s : string) : string :=
  match n, s with
  | S n', String _ s' => dropBytes n' s'
  | _, _ => s
  end.

(** U+FFFD encoded. *)
Definition runeError : string :=
  String (ascii_of_nat 239) (String (ascii_of_nat 191) (String (ascii_of_nat 189) "")).

Definition space : ascii := " "%char.

(** One step of [range]: [string(char)], whether [char == ' '], and the
    rest of the string. *)
Definition nextRune (s : string) : string * bool * string :=
  match s with
  | EmptyString => ("", false, "")
  | String b r =>
      match runeWidth s with
      | O => (runeError, false, r)
      | n => (takeBytes n s, bool_decide (b = space), dropBytes n s)
      end
  end.

(** The loop of [SplitScopes] over the runes of what is left of the
    string; every step consumes at least one byte, so the length of the
    string is fuel enough. *)
Fixpoint SplitScopes_loop (fuel : nat) (s : string) (scopes : list string)
  (current : string) : list string * string :=
  match fuel with
  | O => (scopes, current)
  | S fuel' =>
      match s with
      | EmptyString => (scopes, current)
      | _ =>
          let '(char, isSpace, rest) := nextRune s in
          if isSpace then
            if bool_decide (current <> "")
            then SplitScopes_loop fuel' rest (scopes ++ [current])%list ""
            else SplitScopes_loop fuel' rest scopes current
          else SplitScopes_loop fuel' rest scopes (current +:+ char)
      end
  end.

(** [SplitScopes] splits a space-separated scope string into individual
    scopes. *)
Definition SplitScopes (scopeString : string) : list string :=
  if bool_decide (scopeString = "") then []
  else
    let '(scopes, current) :=
      SplitScopes_loop (String.length scopeString) scopeString [] "" in
    if bool_decide (current <> "") then (scopes ++ [current])%list else scopes.

(** [HasScope] checks if a scope string contains a specific scope. *)
Definition HasScope (scopeString targetScope : string) : bool :=
  let scopes := SplitScopes scopeString in
  existsb (fun scope => bool_decide (scope = targetScope)) scopes.

(** [ValidateScopes] returns the scopes that are not valid Twitter API
    scopes; a key missing from the map reads as [false]. *)
Definition ValidateScopes (scopes : list string) : list string :=
  let validScopes : gmap string bool :=
    fold_left (fun m scope => <[scope := true]> m) AllScopes ∅ in
  fold_left
    (fun invalid scope =>
       if negb (default false (validScopes !! scope))
       then (invalid ++ [scope])%list else invalid)
    scopes [].

(** No byte of the string is a space. *)
Fixpoint spaceFree (s : string) : bool :=
  match s with
  | EmptyString => true
  | String c s' => negb (bool_decide (c = space)) && spaceFree s'
  end.

(** Every byte of the string is ASCII. *)
Fixpoint isASCII (s : string) : bool :=
  match s with
  | EmptyString => true
  | String c s' => (nat_of_ascii c <? 128)%nat && isASCII s'
  end.

(** Every byte of the string is a space. *)
Fixpoint blank (s : string) : bool :=
  match s with
  | EmptyString => true
  | String c s' => bool_decide (c = space) && blank s'
  end.

(** A scope as OAuth2 has them: not empty, ASCII, without a space. *)
Definition scopeToken (s : string) : Prop :=
  s <> "" /\ isASCII s = true /\ spaceFree s = true.

(** What [SplitScopes] returns after its loop. *)
Definition flushScopes (r : list string * string) : list string :=
  if bool_decide (snd r <> "") then (fst r ++ [snd r])%list else fst r.

(** The loop of [SplitScopes] on all of [s]. *)
Definition splitRun (s : string) (scopes : list string) (current : string)
  : list string * string :=
  SplitScopes_loop (String.length s) s scopes current.

(** Scopes joined by single spaces. *)
Fixpoint joinScopes (scopes : list string) : string :=
  match scopes with
  | [] => ""
  | [scope] => scope
  | scope :: rest => scope +:+ " " +:+ joinScopes rest
  end.

(** ** Vocabulary of the properties, and worlds to try them on *)

(** The world once the request has been handed to the transport. *)
Definition afterSend (env : Env) (ctx : Context) (rt : string) (w : World) : World :=
  mkWorld (auth w) (arrival (exchange env ctx rt w))
    (sent w ++ [refreshRequest ctx (auth w) rt])%list (started w).

(** The authorizer once a decoded response has been installed at [t]. *)
Definition installed (tr : OAuth2TokenResponse) (t : time.Time)
  (o : AuthorizerV2) : AuthorizerV2 :=
  mkAuthorizerV2 (AccessToken tr)
    (if bool_decide (RefreshToken tr = "") then refreshToken o else RefreshToken tr)
    (clientID o) (clientSecret o) (tokenURL o) (callback o)
    (if 0 <? ExpiresIn tr
     then time.Add t (time.mul (ExpiresIn tr) time.Second)
     else time.Add t (time.mul 2 time.Hour)).

(** The error of an exchange that was given a refresh token is one of the
    four errors of the exchange itself. *)
Inductive exchangeError : string -> Prop :=
| EECreate c : exchangeError (errCreateRequest c)
| EERefresh c : exchangeError (errRefresh c)
| EEStatus n b : exchangeError (errStatus n b)
| EEDecode c : exchangeError (errDecode c).

(** The token [Add] attaches after [getValidToken] returned [r]. *)
Definition attached (r : (string * option string) * World) : string :=
  match snd (fst r) with
  | Some _ => accessToken (auth (snd r))
  | None => fst (fst r)
  end.

Definition staticWorld : World :=
  mkWorld (NewAuthorizerV2 1000 "tok" "" "" "" None) 2000 [] [].

Definition silentEnv : Env :=
  mkEnv (fun _ => None) (fun _ _ t => mkReply (DoError "connection refused") t).

Definition getRequest : Request := mkRequest 0%nat "GET" "https://api.twitter.com/2/users/me" ∅.

Definition refreshWorld : World :=
  mkWorld (NewAuthorizerV2 1000 "old_access" "old_refresh" "client_id"
             "client_secret" None) 2000 [] [].

(** A token endpoint that rotates both tokens, answering after 5 ns. *)
Definition rotatingEnv : Env :=
  mkEnv (fun _ => None)
    (fun _ _ t =>
       mkReply
         (DoResponse
            (mkResponse 200 "{...}"
               (Value (JObject [("access_token", JString "new_access_token");
                                ("refresh_token", JString "new_refresh_token");
                                ("token_type", JString "Bearer");
                                ("expires_in", JInt 7200)]))))
         (t + 5)).

(** One nanosecond before, and exactly at, the five-minute margin. *)
Definition freshWorld : World :=
  mkWorld (auth refreshWorld) (1000 + 7200000000000 - 300000000000 - 1) [] [].

Definition staleWorld : World :=
  mkWorld (auth refreshWorld) (1000 + 7200000000000 - 300000000000) [] [].

(** A transport whose every call fails: the context was cancelled. *)
Definition cancelledEnv : Env :=
  mkEnv (fun _ => None) (fun _ _ t => mkReply (DoError "context canceled") (t + 1)).

(** [strings.Contains(s, sub)]. *)
Fixpoint Contains (s sub : string) : bool :=
  String.prefix sub s ||
  match s with
  | EmptyString => false
  | String _ s' => Contains s' sub
  end.

(** An error message surfaces a response when it contains both the
    status code and the body of the response. *)
Definition surfaces (msg : string) (resp : Response) : Prop :=
  Contains msg (itoa (StatusCode resp)) = true /\
  Contains msg (BodyText resp) = true.

(** A gateway in front of the token endpoint answers 200 with a page of
    HTML, which is no JSON. *)
Definition htmlResponse : Response :=
  mkResponse 200 "<html>Bad Gateway</html>"
    (Malformed "invalid character '<' looking for beginning of value").

Definition htmlEnv : Env :=
  mkEnv (fun _ => None) (fun _ _ t => mkReply (DoResponse htmlResponse) (t + 5)).

(** The token endpoint rejects the refresh token. *)
Definition rejectedResponse : Response :=
  mkResponse 400 "invalid_request" (Value (JObject [("error", JString "invalid_request")])).

Definition rejectingEnv : Env :=
  mkEnv (fun _ => None) (fun _ _ t => mkReply (DoResponse rejectedResponse) (t + 5)).

(** The token endpoint answers 200 with the empty object. *)
Definition emptyObjectResponse : Response :=
  mkResponse 200 "{}" (Value (JObject [])).

Definition emptyObjectEnv : Env :=
  mkEnv (fun _ => None)
    (fun _ _ t => mkReply (DoResponse emptyObjectResponse) (t + 5)).

(** The token endpoint grants a lifetime of 9223372037 seconds, one
    second more than a [Duration] can count in nanoseconds. *)
Definition longLivedResponse : Response :=
  mkResponse 200 "{...}"
    (Value (JObject [("access_token", JString "new_access_token");
                     ("token_type", JString "Bearer");
                     ("expires_in", JInt 9223372037)])).

Definition longLivedEnv : Env :=
  mkEnv (fun _ => None)
    (fun _ _ t => mkReply (DoResponse longLivedResponse) (t + 5)).

(** The shape of every refresh request of a supplier with the
    configuration of [o]: a form-encoded POST to its token endpoint, with
    its client credentials as basic credentials and, in the form, the
    client id, the grant type and a refresh token that is not empty. *)
Definition refreshRequestOf (o : AuthorizerV2) (r : TokenRequest) : Prop :=
  trMethod r = "POST" /\
  trURL r = tokenURL o /\
  trContentType r = "application/x-www-form-urlencoded" /\
  trBasicAuth r = (clientID o, clientSecret o) /\
  exists rt, rt <> "" /\
    trForm r = [("client_id", clientID o); ("grant_type", "refresh_token");
                ("refresh_token", rt)].

(** [evolves n w w']: [w'] keeps the configuration of [w] (client
    credentials, token endpoint, callback); its transport log is that of
    [w] followed by at most [n] refresh requests; its goroutines are those
    of [w] followed by at most as many callbacks as requests, and by none
    without a callback. *)
Definition evolves (n : nat) (w w' : World) : Prop :=
  clientID (auth w') = clientID (auth w) /\
  clientSecret (auth w') = clientSecret (auth w) /\
  tokenURL (auth w') = tokenURL (auth w) /\
  callback (auth w') = callback (auth w) /\
  exists l k,
    sent w' = (sent w ++ l)%list /\
    Forall (refreshRequestOf (auth w)) l /\
    (length l <= n)%nat /\
    started w' = (started w ++ k)%list /\
    (length k <= length l)%nat /\
    (callback (auth w) = None -> k = []).

(** An operation that hands the supplier a refresh token. *)
Definition suppliesRefreshToken (op : Op) : bool :=
  match op with
  | OpUpdateTokens _ r => negb (bool_decide (r = ""))
  | OpExchange _ r => negb (bool_decide (r = ""))
  | _ => false
  end.

(** The world [w] when the clock reads [t]. *)
Definition atClock (t : time.Time) (w : World) : World :=
  mkWorld (auth w) t (sent w) (started w).

(** A token endpoint that grants five minutes. *)
Definition fiveMinuteResponse : Response :=
  mkResponse 200 "{...}"
    (Value (JObject [("access_token", JString "five"); ("expires_in", JInt 300)])).

Definition fiveMinuteEnv : Env :=
  mkEnv (fun _ => None)
    (fun _ _ t => mkReply (DoResponse fiveMinuteResponse) (t + 5)).

#[global] Instance field_eq_dec : EqDecision field.
Proof. solve_decision. Defined.

(** The members of an object say nothing about field [f]: every member
    that selects [f] holds [null]. *)
Definition silentOn (f : field) (ms : list (string * json)) : Prop :=
  Forall (fun m => findField (fst m) = Some f -> snd m = JNull) ms.

(** * Properties *)

(** ** Arithmetic of the durations the code uses *)

Lemma two_hours : time.mul 2 time.Hour = 7200000000000.
Proof. reflexivity. Qed.

Lemma five_minutes : time.mul 5 time.Minute = 300000000000.
Proof. reflexivity. Qed.

Lemma wrap64_id (z : Z) : minInt64 <= z <= maxInt64 -> wrap64 z = z.
Proof.
  unfold wrap64, minInt64, maxInt64. intros H.
  rewrite Z.mod_small by lia. lia.
Qed.

(** Seconds that fit a [Duration]: up to 9223372036 of them. *)
Lemma seconds_exact (n : Z) :
  0 <= n <= 9223372036 -> time.mul n time.Second = n * 1000000000.
Proof.
  intros H. unfold time.mul, time.Second.
  apply wrap64_id. unfold minInt64, maxInt64. lia.
Qed.

(** ** The refresh exchange, case by case *)

Ltac finish_install C :=
  unfold goCallback, withAuth, ret, set_expiresAt, set_accessToken,
    set_refreshToken; cbn; rewrite ?C; reflexivity.

Section RefreshCases.

Variable env : Env.
Variable ctx : Context.
Variable rt : string.
Variable w : World.

Lemma refresh_no_token :
  refreshAccessToken env ctx "" w = (("", Some errNoRefreshToken), w).
Proof. reflexivity. Qed.

Hypothesis Hrt : rt <> "".

Lemma refresh_create_fails (e : string) :
  newRequestError env (tokenURL (auth w)) = Some e ->
  refreshAccessToken env ctx rt w = (("", Some (errCreateRequest e)), w).
Proof.
  intros He. unfold refreshAccessToken.
  rewrite bool_decide_eq_false_2 by exact Hrt.
  unfold bind, getAuth. now rewrite He.
Qed.

Hypothesis Hnew : newRequestError env (tokenURL (auth w)) = None.

Lemma refresh_do_fails (e : string) :
  outcome (exchange env ctx rt w) = DoError e ->
  refreshAccessToken env ctx rt w = (("", Some (errRefresh e)), (afterSend env ctx rt w)).
Proof.
  intros He. unfold refreshAccessToken.
  rewrite bool_decide_eq_false_2 by exact Hrt.
  unfold bind, getAuth, clientDo. rewrite Hnew.
  fold (exchange env ctx rt w). now rewrite He.
Qed.

Variable resp : Response.
Hypothesis Hresp : outcome (exchange env ctx rt w) = DoResponse resp.

Lemma refresh_bad_status :
  StatusCode resp <> StatusOK ->
  refreshAccessToken env ctx rt w =
    (("", Some (errStatus (StatusCode resp) (BodyText resp))), (afterSend env ctx rt w)).
Proof.
  intros Hs. unfold refreshAccessToken.
  rewrite bool_decide_eq_false_2 by exact Hrt.
  unfold bind, getAuth, clientDo. rewrite Hnew.
  fold (exchange env ctx rt w). rewrite Hresp.
  apply Z.eqb_neq in Hs. now rewrite Hs.
Qed.

Hypothesis Hok : StatusCode resp = StatusOK.

Lemma refresh_bad_body (e : string) :
  Decode (BodyJSON resp) = inl e ->
  refreshAccessToken env ctx rt w = (("", Some (errDecode e)), (afterSend env ctx rt w)).
Proof.
  intros Hd. unfold refreshAccessToken.
  rewrite bool_decide_eq_false_2 by exact Hrt.
  unfold bind, getAuth, clientDo. rewrite Hnew.
  fold (exchange env ctx rt w). rewrite Hresp, Hok, Hd. reflexivity.
Qed.

Lemma refresh_ok (tr : OAuth2TokenResponse) :
  Decode (BodyJSON resp) = inr tr ->
  refreshAccessToken env ctx rt w =
    ((AccessToken tr, None),
     mkWorld (installed tr (now (afterSend env ctx rt w)) (auth w))
       (now (afterSend env ctx rt w)) (sent (afterSend env ctx rt w))
       (match callback (auth w) with
        | Some cb =>
            (started w ++
             [(cb, AccessToken tr,
               if bool_decide (RefreshToken tr = "")
               then refreshToken (auth w) else RefreshToken tr)])%list
        | None => started w
        end)).
Proof.
  intros Hd. unfold refreshAccessToken.
  rewrite bool_decide_eq_false_2 by exact Hrt.
  unfold bind, getAuth, clientDo. rewrite Hnew.
  fold (exchange env ctx rt w). rewrite Hresp, Hok, Hd. simpl.
  unfold installed.
  destruct (bool_decide_reflect (RefreshToken tr = "")) as [E|E].
  - rewrite bool_decide_eq_false_2 by (intros N; exact (N E)).
    destruct (0 <? ExpiresIn tr); cbn;
      destruct (callback (auth w)) eqn:C; finish_install C.
  - rewrite bool_decide_eq_true_2 by exact E.
    destruct (0 <? ExpiresIn tr); cbn;
      destruct (callback (auth w)) eqn:C; finish_install C.
Qed.

End RefreshCases.

(** A failed exchange leaves the authorizer as it was, and so does the
    clock-and-log part of the world unless the request was sent. *)
Lemma refresh_failure_frame (env : Env) (ctx : Context) (rt : string)
  (w : World) (e : string) :
  snd (fst (refreshAccessToken env ctx rt w)) = Some e ->
  auth (snd (refreshAccessToken env ctx rt w)) = auth w /\
  started (snd (refreshAccessToken env ctx rt w)) = started w.
Proof.
  destruct (decide (rt = "")) as [->|Hrt]; [now rewrite refresh_no_token|].
  destruct (newRequestError env (tokenURL (auth w))) as [c|] eqn:Hnew.
  { now rewrite (refresh_create_fails env ctx rt w Hrt c Hnew). }
  destruct (outcome (exchange env ctx rt w)) as [c|resp] eqn:Hout.
  { now rewrite (refresh_do_fails env ctx rt w Hrt Hnew c Hout). }
  destruct (decide (StatusCode resp = StatusOK)) as [Hok|Hbad].
  2: { now rewrite (refresh_bad_status env ctx rt w Hrt Hnew resp Hout Hbad). }
  destruct (Decode (BodyJSON resp)) as [c|tr] eqn:Hd.
  { now rewrite (refresh_bad_body env ctx rt w Hrt Hnew resp Hout Hok c Hd). }
  rewrite (refresh_ok env ctx rt w Hrt Hnew resp Hout Hok tr Hd). discriminate.
Qed.

Lemma refresh_error_kind (env : Env) (ctx : Context) (rt : string)
  (w : World) (e : string) :
  rt <> "" ->
  snd (fst (refreshAccessToken env ctx rt w)) = Some e ->
  exchangeError e.
Proof.
  intros Hrt.
  destruct (newRequestError env (tokenURL (auth w))) as [c|] eqn:Hnew.
  { rewrite (refresh_create_fails env ctx rt w Hrt c Hnew).
    intros [= <-]. constructor. }
  destruct (outcome (exchange env ctx rt w)) as [c|resp] eqn:Hout.
  { rewrite (refresh_do_fails env ctx rt w Hrt Hnew c Hout).
    intros [= <-]. constructor. }
  destruct (decide (StatusCode resp = StatusOK)) as [Hok|Hbad].
  2: { rewrite (refresh_bad_status env ctx rt w Hrt Hnew resp Hout Hbad).
       intros [= <-]. constructor. }
  destruct (Decode (BodyJSON resp)) as [c|tr] eqn:Hd.
  { rewrite (refresh_bad_body env ctx rt w Hrt Hnew resp Hout Hok c Hd).
    intros [= <-]. constructor. }
  rewrite (refresh_ok env ctx rt w Hrt Hnew resp Hout Hok tr Hd). discriminate.
Qed.

Lemma exchangeError_not_missing_token (e : string) :
  exchangeError e -> e <> errNoRefreshToken.
Proof. intros [c|c|n b|c]; discriminate. Qed.

(** An exchange never empties a refresh token. *)
Lemma refresh_keeps_refresh_mode (env : Env) (ctx : Context) (rt : string)
  (w : World) :
  refreshToken (auth w) <> "" ->
  refreshToken (auth (snd (refreshAccessToken env ctx rt w))) <> "".
Proof.
  intros Hw.
  destruct (snd (fst (refreshAccessToken env ctx rt w))) as [e|] eqn:He.
  { now destruct (refresh_failure_frame env ctx rt w e He) as [-> _]. }
  revert He.
  destruct (decide (rt = "")) as [->|Hrt]; [now rewrite refresh_no_token|].
  destruct (newRequestError env (tokenURL (auth w))) as [c|] eqn:Hnew.
  { now rewrite (refresh_create_fails env ctx rt w Hrt c Hnew). }
  destruct (outcome (exchange env ctx rt w)) as [c|resp] eqn:Hout.
  { now rewrite (refresh_do_fails env ctx rt w Hrt Hnew c Hout). }
  destruct (decide (StatusCode resp = StatusOK)) as [Hok|Hbad].
  2: { now rewrite (refresh_bad_status env ctx rt w Hrt Hnew resp Hout Hbad). }
  destruct (Decode (BodyJSON resp)) as [c|tr] eqn:Hd.
  { now rewrite (refresh_bad_body env ctx rt w Hrt Hnew resp Hout Hok c Hd). }
  rewrite (refresh_ok env ctx rt w Hrt Hnew resp Hout Hok tr Hd). intros _.
  cbn. now case_bool_decide.
Qed.

(** ** Construction *)

(** C8. Construction contract: a construction with an empty refresh token
    clears clientID, clientSecret and the token endpoint URL; a
    construction with a non-empty refresh token keeps the client
    credentials and the token endpoint, and starts with an expiry two
    hours after the time of construction. Both keep the two tokens. *)
Theorem construction_contract (t : time.Time)
  (a r id secret : string) (cb : option TokenRefreshCallback) :
  let o := NewAuthorizerV2 t a r id secret cb in
  accessToken o = a /\ refreshToken o = r /\
  (r = "" -> clientID o = "" /\ clientSecret o = "" /\ tokenURL o = "") /\
  (r <> "" ->
   clientID o = id /\ clientSecret o = secret /\
   tokenURL o = "https://api.twitter.com/2/oauth2/token" /\
   expiresAt o = t + 2 * (60 * (60 * 1000000000))).
Proof.
  cbn zeta. unfold NewAuthorizerV2.
  case_bool_decide as Hr; cbn.
  - split; [reflexivity|]. split; [reflexivity|].
    split; intros H; [repeat split | contradiction].
  - split; [reflexivity|]. split; [reflexivity|].
    split; intros H; [contradiction | repeat split].
Qed.

Lemma construction_contract_witness :
  (clientID (NewAuthorizerV2 1000 "tok" "" "id" "secret" None) = "" /\
   clientSecret (NewAuthorizerV2 1000 "tok" "" "id" "secret" None) = "" /\
   tokenURL (NewAuthorizerV2 1000 "tok" "" "id" "secret" None) = "") /\
  (clientID (NewAuthorizerV2 1000 "tok" "ref" "id" "secret" None) = "id" /\
   clientSecret (NewAuthorizerV2 1000 "tok" "ref" "id" "secret" None) = "secret" /\
   tokenURL (NewAuthorizerV2 1000 "tok" "ref" "id" "secret" None)
     = "https://api.twitter.com/2/oauth2/token" /\
   expiresAt (NewAuthorizerV2 1000 "tok" "ref" "id" "secret" None)
     = 1000 + 2 * (60 * (60 * 1000000000))).
Proof.
  split.
  - apply (construction_contract 1000 "tok" "" "id" "secret" None).
    reflexivity.
  - apply (construction_contract 1000 "tok" "ref" "id" "secret" None).
    discriminate.
Defined.

(** ** UpdateTokens and GetTokens *)

Lemma GetTokens_reads (w : World) :
  GetTokens w = ((accessToken (auth w), refreshToken (auth w)), w).
Proof. reflexivity. Qed.

(** C7. UpdateTokens applies its two arguments independently: a non-empty
    argument replaces the stored token, an empty one leaves it; every
    other field of the supplier (expiresAt, clientID, clientSecret, the
    token endpoint, the callback) and the rest of the world are left
    unchanged. *)
Theorem UpdateTokens_frame (a r : string) (w : World) :
  let w' := snd (UpdateTokens a r w) in
  accessToken (auth w') = (if bool_decide (a = "") then accessToken (auth w) else a) /\
  refreshToken (auth w') = (if bool_decide (r = "") then refreshToken (auth w) else r) /\
  expiresAt (auth w') = expiresAt (auth w) /\
  clientID (auth w') = clientID (auth w) /\
  clientSecret (auth w') = clientSecret (auth w) /\
  tokenURL (auth w') = tokenURL (auth w) /\
  callback (auth w') = callback (auth w) /\
  now w' = now w /\ sent w' = sent w /\ started w' = started w.
Proof.
  cbn zeta. unfold UpdateTokens, bind, modifyAuth, ret.
  destruct (bool_decide_reflect (a = "")) as [Ha|Ha];
    destruct (bool_decide_reflect (r = "")) as [Hr|Hr].
  - rewrite !bool_decide_eq_false_2 by (intros N; contradiction).
    cbn. repeat split.
  - rewrite bool_decide_eq_false_2 by (intros N; contradiction).
    rewrite bool_decide_eq_true_2 by exact Hr. cbn. repeat split.
  - rewrite bool_decide_eq_true_2 by exact Ha.
    rewrite bool_decide_eq_false_2 by (intros N; contradiction).
    cbn. repeat split.
  - rewrite !bool_decide_eq_true_2 by assumption. cbn. repeat split.
Qed.

(** ** Add, getValidToken and ForceRefresh, branch by branch *)

Lemma Add_static (env : Env) (req : Request) (w : World) :
  refreshToken (auth w) = "" ->
  Add env req w = (addAuthorization (accessToken (auth w)) req, w).
Proof.
  intros H. unfold Add, bind, getAuth, ret.
  now rewrite bool_decide_eq_true_2 by exact H.
Qed.

Lemma Add_refresh (env : Env) (req : Request) (w : World) :
  refreshToken (auth w) <> "" ->
  Add env req w =
    (addAuthorization (attached (getValidToken env (reqCtx req) w)) req,
     snd (getValidToken env (reqCtx req) w)).
Proof.
  intros H. unfold Add, bind, getAuth, ret, attached.
  rewrite bool_decide_eq_false_2 by exact H.
  destruct (getValidToken env (reqCtx req) w) as [[tok [e|]] w']; reflexivity.
Qed.

Lemma getValidToken_valid (env : Env) (ctx : Context) (w : World) :
  now w + 300000000000 < expiresAt (auth w) ->
  getValidToken env ctx w = ((accessToken (auth w), None), w).
Proof.
  intros H. unfold getValidToken, bind, getAuth, timeNow, ret.
  rewrite five_minutes. unfold time.Before, time.Add.
  apply Z.ltb_lt in H. now rewrite H.
Qed.

Lemma getValidToken_stale (env : Env) (ctx : Context) (w : World) :
  expiresAt (auth w) <= now w + 300000000000 ->
  getValidToken env ctx w = refreshAccessToken env ctx (refreshToken (auth w)) w.
Proof.
  intros H. unfold getValidToken, bind, getAuth, timeNow, ret.
  rewrite five_minutes. unfold time.Before, time.Add.
  apply Z.ltb_ge in H. now rewrite H.
Qed.

Lemma ForceRefresh_static (env : Env) (ctx : Context) (w : World) :
  refreshToken (auth w) = "" ->
  ForceRefresh env ctx w = (Some errNoRefreshToken, w).
Proof.
  intros H. unfold ForceRefresh, bind, getAuth, ret.
  now rewrite bool_decide_eq_true_2 by exact H.
Qed.

Lemma ForceRefresh_refresh (env : Env) (ctx : Context) (w : World) :
  refreshToken (auth w) <> "" ->
  ForceRefresh env ctx w =
    (snd (fst (refreshAccessToken env ctx (refreshToken (auth w)) w)),
     snd (refreshAccessToken env ctx (refreshToken (auth w)) w)).
Proof.
  intros H. unfold ForceRefresh, bind, getAuth, ret.
  rewrite bool_decide_eq_false_2 by exact H.
  destruct (refreshAccessToken env ctx (refreshToken (auth w)) w)
    as [[tok e] w']; reflexivity.
Qed.

Lemma sent_after_refresh (env : Env) (ctx : Context) (rt : string) (w : World) :
  rt <> "" ->
  sent (snd (refreshAccessToken env ctx rt w)) =
    match newRequestError env (tokenURL (auth w)) with
    | Some _ => sent w
    | None => (sent w ++ [refreshRequest ctx (auth w) rt])%list
    end.
Proof.
  intros Hrt.
  destruct (newRequestError env (tokenURL (auth w))) as [c|] eqn:Hnew.
  { now rewrite (refresh_create_fails env ctx rt w Hrt c Hnew). }
  destruct (outcome (exchange env ctx rt w)) as [c|resp] eqn:Hout.
  { now rewrite (refresh_do_fails env ctx rt w Hrt Hnew c Hout). }
  destruct (decide (StatusCode resp = StatusOK)) as [Hok|Hbad].
  2: { now rewrite (refresh_bad_status env ctx rt w Hrt Hnew resp Hout Hbad). }
  destruct (Decode (BodyJSON resp)) as [c|tr] eqn:Hd.
  { now rewrite (refresh_bad_body env ctx rt w Hrt Hnew resp Hout Hok c Hd). }
  now rewrite (refresh_ok env ctx rt w Hrt Hnew resp Hout Hok tr Hd).
Qed.

(** ** Static mode *)

(** C5. Static mode: for a supplier whose refresh token is empty, Add
    attaches "Bearer " followed by exactly the stored access token (the
    value is added to the request's Authorization header), leaves the
    whole world as it was (nothing is handed to the transport, whatever
    the environment), does not depend on the expiry or the clock, and
    always returns. *)
Theorem static_mode_attach (env : Env) (req : Request) (w : World) :
  refreshToken (auth w) = "" ->
  Add env req w = (addAuthorization (accessToken (auth w)) req, w) /\
  header.values (reqHeader (fst (Add env req w))) "Authorization" =
    (header.values (reqHeader req) "Authorization" ++
     ["Bearer " +:+ accessToken (auth w)])%list /\
  sent (snd (Add env req w)) = sent w /\
  (forall env', Add env' req w = Add env req w) /\
  (forall (e t : time.Time),
     fst (Add env req (mkWorld (set_expiresAt e (auth w)) t (sent w) (started w)))
     = fst (Add env req w)).
Proof.
  intros H. rewrite (Add_static env req w H). cbn [fst snd].
  split; [reflexivity|]. split.
  - cbn [addAuthorization reqHeader]. unfold header.Add, bearer.
    unfold header.values at 1. now rewrite lookup_insert_eq.
  - split; [reflexivity|]. split.
    + intros env'. now rewrite (Add_static env' req w H).
    + intros e t. now rewrite Add_static by exact H.
Qed.

Lemma static_mode_attach_witness :
  header.values (reqHeader (fst (Add silentEnv getRequest staticWorld))) "Authorization" =
    (header.values (reqHeader getRequest) "Authorization" ++ ["Bearer " +:+ "tok"])%list /\
  sent (snd (Add silentEnv getRequest staticWorld)) = [].
Proof.
  split; apply (static_mode_attach silentEnv getRequest staticWorld); reflexivity.
Defined.

(** C6. ForceRefresh without a refresh token fails with the error
    "no refresh token available" and leaves the world as it was; that
    message differs from the message of every failure of the exchange
    itself (request creation, transport, status, decoding); and
    ForceRefresh with a refresh token never returns it. *)
Theorem ForceRefresh_missing_token (env : Env) (ctx : Context) (w : World) :
  (refreshToken (auth w) = "" ->
   ForceRefresh env ctx w = (Some "no refresh token available", w)) /\
  (forall (c b : string) (n : Z),
     errCreateRequest c <> "no refresh token available" /\
     errRefresh c <> "no refresh token available" /\
     errStatus n b <> "no refresh token available" /\
     errDecode c <> "no refresh token available") /\
  (refreshToken (auth w) <> "" ->
   fst (ForceRefresh env ctx w) <> Some "no refresh token available").
Proof.
  split; [exact (ForceRefresh_static env ctx w)|]. split.
  - intros c b n. repeat split; discriminate.
  - intros H. rewrite (ForceRefresh_refresh env ctx w H). cbn [fst].
    intros He.
    apply (exchangeError_not_missing_token "no refresh token available");
      [|reflexivity].
    exact (refresh_error_kind env ctx _ w _ H He).
Qed.

Lemma ForceRefresh_missing_token_witness :
  ForceRefresh silentEnv 0%nat staticWorld
    = (Some "no refresh token available", staticWorld) /\
  fst (ForceRefresh silentEnv 0%nat refreshWorld)
    <> Some "no refresh token available".
Proof.
  split.
  - apply (ForceRefresh_missing_token silentEnv 0%nat staticWorld). reflexivity.
  - apply (ForceRefresh_missing_token silentEnv 0%nat refreshWorld). discriminate.
Defined.

(** ** Refresh mode: the safety margin *)

(** C3. Five-minute margin, exact boundary. In refresh mode, an Add made
    when now + 5 minutes is strictly before expiresAt attaches the cached
    access token and leaves the world untouched (no exchange); an Add
    made when expiresAt is at most now + 5 minutes runs the refresh
    exchange exactly once, with the stored refresh token: its world is
    the world of that one run, and the transport has received exactly
    the one refresh request (none if the request could not be built). *)
Theorem safety_margin_boundary (env : Env) (req : Request) (w : World) :
  refreshToken (auth w) <> "" ->
  (now w + 5 * (60 * 1000000000) < expiresAt (auth w) ->
   Add env req w = (addAuthorization (accessToken (auth w)) req, w)) /\
  (expiresAt (auth w) <= now w + 5 * (60 * 1000000000) ->
   let r := refreshAccessToken env (reqCtx req) (refreshToken (auth w)) w in
   Add env req w = (addAuthorization (attached r) req, snd r) /\
   sent (snd (Add env req w)) =
     match newRequestError env (tokenURL (auth w)) with
     | Some _ => sent w
     | None =>
         (sent w ++ [refreshRequest (reqCtx req) (auth w) (refreshToken (auth w))])%list
     end).
Proof.
  intros Hr. split; intros Ht.
  - rewrite (Add_refresh env req w Hr).
    now rewrite (getValidToken_valid env (reqCtx req) w Ht).
  - cbn zeta. rewrite (Add_refresh env req w Hr).
    rewrite (getValidToken_stale env (reqCtx req) w Ht).
    split; [reflexivity|]. cbn [snd].
    exact (sent_after_refresh env (reqCtx req) _ w Hr).
Qed.

Lemma safety_margin_boundary_witness :
  Add rotatingEnv getRequest freshWorld
    = (addAuthorization "old_access" getRequest, freshWorld) /\
  (fst (Add rotatingEnv getRequest staleWorld)
     = addAuthorization "new_access_token" getRequest /\
   sent (snd (Add rotatingEnv getRequest staleWorld))
     = [refreshRequest 0%nat (auth staleWorld) "old_refresh"]).
Proof.
  split.
  - apply (safety_margin_boundary rotatingEnv getRequest freshWorld).
    + discriminate.
    + reflexivity.
  - destruct (safety_margin_boundary rotatingEnv getRequest staleWorld) as [_ H].
    + discriminate.
    + destruct H as [H1 H2].
      * vm_compute. discriminate.
      * split; [rewrite H1; reflexivity | exact H2].
Defined.

(** ** Refresh mode: failures *)

Lemma getValidToken_failure (env : Env) (ctx : Context) (w : World) (e : string) :
  snd (fst (getValidToken env ctx w)) = Some e ->
  getValidToken env ctx w = refreshAccessToken env ctx (refreshToken (auth w)) w /\
  auth (snd (getValidToken env ctx w)) = auth w.
Proof.
  destruct (Z_lt_le_dec (now w + 300000000000) (expiresAt (auth w))) as [Hv|Hs].
  - now rewrite (getValidToken_valid env ctx w Hv).
  - rewrite (getValidToken_stale env ctx w Hs). intros He.
    split; [reflexivity|].
    exact (proj1 (refresh_failure_frame env ctx _ w e He)).
Qed.

(** C4. Add never surfaces an error: in refresh mode it always returns
    the request with a bearer value attached, and when obtaining a valid
    token fails, for whatever reason, the value attached is the cached
    access token, which the failure has left as it was before the call,
    along with the rest of the supplier. *)
Theorem attach_never_fails (env : Env) (req : Request) (w : World) :
  refreshToken (auth w) <> "" ->
  (exists token, fst (Add env req w) = addAuthorization token req) /\
  (forall e,
     snd (fst (getValidToken env (reqCtx req) w)) = Some e ->
     fst (Add env req w) = addAuthorization (accessToken (auth w)) req /\
     header.values (reqHeader (fst (Add env req w))) "Authorization" =
       (header.values (reqHeader req) "Authorization" ++
        ["Bearer " +:+ accessToken (auth w)])%list /\
     auth (snd (Add env req w)) = auth w).
Proof.
  intros Hr. rewrite (Add_refresh env req w Hr). cbn [fst snd]. split.
  - eexists. reflexivity.
  - intros e He.
    destruct (getValidToken_failure env (reqCtx req) w e He) as [_ Hauth].
    unfold attached. rewrite He, Hauth. split; [reflexivity|].
    split; [|reflexivity].
    cbn [addAuthorization reqHeader]. unfold header.Add, bearer.
    unfold header.values at 1. now rewrite lookup_insert_eq.
Qed.

Lemma attach_never_fails_witness :
  fst (Add cancelledEnv getRequest staleWorld)
    = addAuthorization "old_access" getRequest /\
  auth (snd (Add cancelledEnv getRequest staleWorld)) = auth staleWorld.
Proof.
  destruct (attach_never_fails cancelledEnv getRequest staleWorld) as [_ H].
  - discriminate.
  - destruct (H "failed to refresh token: context canceled") as (H1 & _ & H3).
    + reflexivity.
    + split; [exact H1 | exact H3].
Defined.

Lemma prefix_app (sub rest : string) : String.prefix sub (sub +:+ rest) = true.
Proof.
  induction sub as [|c sub IH]; simpl.
  - now destruct rest.
  - destruct (ascii_dec c c) as [_|N]; [exact IH | contradiction].
Qed.

Lemma Contains_unfold (s sub : string) :
  Contains s sub =
    String.prefix sub s ||
    match s with
    | EmptyString => false
    | String _ s' => Contains s' sub
    end.
Proof. destruct s; reflexivity. Qed.

Lemma Contains_here (sub rest : string) : Contains (sub +:+ rest) sub = true.
Proof. rewrite Contains_unfold, prefix_app. reflexivity. Qed.

Lemma Contains_app_r (pre s sub : string) :
  Contains s sub = true -> Contains (pre +:+ s) sub = true.
Proof.
  intros H. induction pre as [|c pre IH]; [exact H|].
  rewrite Contains_unfold.
  change (String c pre +:+ s) with (String c (pre +:+ s)).
  cbv iota. rewrite IH. apply orb_true_r.
Qed.

Lemma append_empty_r (s : string) : s +:+ "" = s.
Proof.
  induction s as [|c s IH]; [reflexivity|].
  change (String c (s +:+ "") = String c s). f_equal. exact IH.
Qed.

Lemma errStatus_surfaces (n : Z) (b : string) :
  Contains (errStatus n b) (itoa n) = true /\ Contains (errStatus n b) b = true.
Proof.
  unfold errStatus. split.
  - apply Contains_app_r, Contains_here.
  - apply Contains_app_r, Contains_app_r, Contains_app_r.
    rewrite <- (append_empty_r b) at 1. apply Contains_here.
Qed.

(** C2, as stated, fails: when a 200 response fails to decode, the error
    of ForceRefresh carries the decoder's error, and contains neither the
    status nor the body of the response. *)
Lemma decode_failure_hides_response :
  outcome (exchange htmlEnv 0%nat "old_refresh" refreshWorld) = DoResponse htmlResponse /\
  Decode (BodyJSON htmlResponse)
    = inl "invalid character '<' looking for beginning of value" /\
  ~ (exists msg, fst (ForceRefresh htmlEnv 0%nat refreshWorld) = Some msg /\
                 surfaces msg htmlResponse).
Proof.
  split; [reflexivity|]. split; [reflexivity|].
  intros (msg & Hmsg & Hstatus & Hbody).
  vm_compute in Hmsg. injection Hmsg as <-.
  vm_compute in Hbody. discriminate.
Qed.

(** C2, amended. A failed exchange is atomic: when the token endpoint
    answers with a status other than 200, or with a 200 whose body fails
    to decode, the supplier (access token, refresh token, expiresAt and
    the rest) is left as it was and ForceRefresh returns an error; for a
    status other than 200 the error is "token refresh failed with status
    <status>: <body>", which contains the status and the body; for a
    decode failure it is "failed to decode token response: <decoder's
    error>". *)
Theorem exchange_failure_atomic (env : Env) (ctx : Context) (w : World)
  (resp : Response) :
  refreshToken (auth w) <> "" ->
  newRequestError env (tokenURL (auth w)) = None ->
  outcome (exchange env ctx (refreshToken (auth w)) w) = DoResponse resp ->
  (StatusCode resp <> 200 ->
   fst (ForceRefresh env ctx w) =
     Some ("token refresh failed with status " +:+ itoa (StatusCode resp) +:+
           ": " +:+ BodyText resp) /\
   surfaces ("token refresh failed with status " +:+ itoa (StatusCode resp) +:+
             ": " +:+ BodyText resp) resp /\
   auth (snd (ForceRefresh env ctx w)) = auth w) /\
  (forall e,
     StatusCode resp = 200 -> Decode (BodyJSON resp) = inl e ->
     fst (ForceRefresh env ctx w) = Some ("failed to decode token response: " +:+ e) /\
     auth (snd (ForceRefresh env ctx w)) = auth w).
Proof.
  intros Hr Hnew Hout. rewrite (ForceRefresh_refresh env ctx w Hr).
  cbn [fst snd]. split.
  - intros Hs.
    rewrite (refresh_bad_status env ctx _ w Hr Hnew resp Hout Hs).
    split; [reflexivity|]. split; [|reflexivity].
    exact (errStatus_surfaces (StatusCode resp) (BodyText resp)).
  - intros e Hs Hd.
    rewrite (refresh_bad_body env ctx _ w Hr Hnew resp Hout Hs e Hd).
    split; reflexivity.
Qed.

Lemma exchange_failure_atomic_witness :
  (fst (ForceRefresh rejectingEnv 0%nat refreshWorld)
     = Some "token refresh failed with status 400: invalid_request" /\
   auth (snd (ForceRefresh rejectingEnv 0%nat refreshWorld)) = auth refreshWorld) /\
  (fst (ForceRefresh htmlEnv 0%nat refreshWorld)
     = Some "failed to decode token response: invalid character '<' looking for beginning of value" /\
   auth (snd (ForceRefresh htmlEnv 0%nat refreshWorld)) = auth refreshWorld).
Proof.
  split.
  - destruct (exchange_failure_atomic rejectingEnv 0%nat refreshWorld rejectedResponse)
      as [H _]; [discriminate | reflexivity | reflexivity |].
    destruct H as (H1 & _ & H3); [discriminate|].
    split; [exact H1 | exact H3].
  - destruct (exchange_failure_atomic htmlEnv 0%nat refreshWorld htmlResponse)
      as [_ H]; [discriminate | reflexivity | reflexivity |].
    apply (H "invalid character '<' looking for beginning of value"); reflexivity.
Defined.

(** ** Decoding a body without access_token *)

Lemma decodeField_other (f : field) (j : json) (r : OAuth2TokenResponse) :
  f <> FAccessToken ->
  AccessToken (fst (decodeField f j r)) = AccessToken r.
Proof.
  intros Hf. destruct f; try contradiction;
    destruct j; cbn; try reflexivity.
  destruct (inInt64 z); reflexivity.
Qed.

Lemma decodeMembers_other (ms : list (string * json)) :
  Forall (fun m => findField (fst m) <> Some FAccessToken) ms ->
  forall r err,
    AccessToken (fst (decodeMembers ms r err)) = AccessToken r.
Proof.
  induction 1 as [|[key j] ms Hm _ IH]; intros r err; [reflexivity|].
  cbn [decodeMembers]. cbn [fst] in Hm.
  destruct (findField key) as [f|]; [|apply IH].
  assert (Hf : f <> FAccessToken) by congruence.
  pose proof (decodeField_other f j r Hf) as Hd.
  destruct (decodeField f j r) as [r' e]. cbn [fst] in Hd.
  now rewrite IH.
Qed.

(** A body that decodes and has no member for access_token yields the
    empty access token. *)
Lemma Decode_without_access_token (ms : list (string * json))
  (tr : OAuth2TokenResponse) :
  Forall (fun m => findField (fst m) <> Some FAccessToken) ms ->
  Decode (Value (JObject ms)) = inr tr ->
  AccessToken tr = "".
Proof.
  intros Hms. cbn [Decode].
  pose proof (decodeMembers_other ms Hms zeroTokenResponse None) as H.
  destruct (decodeMembers ms zeroTokenResponse None) as [r [e|]];
    [discriminate|].
  intros [= <-]. exact H.
Qed.

(** C9, as stated, fails: a 200 response whose body is the empty object
    has no access_token, yet it decodes, the exchange succeeds, and the
    cached access token is replaced, by the empty string. *)
Lemma missing_access_token_accepted :
  outcome (exchange emptyObjectEnv 0%nat "old_refresh" refreshWorld)
    = DoResponse emptyObjectResponse /\
  Decode (BodyJSON emptyObjectResponse) = inr zeroTokenResponse /\
  fst (ForceRefresh emptyObjectEnv 0%nat refreshWorld) = None /\
  accessToken (auth refreshWorld) = "old_access" /\
  accessToken (auth (snd (ForceRefresh emptyObjectEnv 0%nat refreshWorld))) = "".
Proof. repeat split. Qed.

(** C9, amended. The access token of an exchange response is not
    required: every exchange returning HTTP 200 with a body that decodes
    succeeds, and the cached access token is replaced by the decoded
    access_token; when the body is an object without that member, or
    supplies it empty, the cached access token becomes the empty
    string. *)
Theorem access_token_not_required (env : Env) (ctx : Context) (w : World)
  (resp : Response) (tr : OAuth2TokenResponse) :
  refreshToken (auth w) <> "" ->
  newRequestError env (tokenURL (auth w)) = None ->
  outcome (exchange env ctx (refreshToken (auth w)) w) = DoResponse resp ->
  StatusCode resp = 200 ->
  Decode (BodyJSON resp) = inr tr ->
  fst (ForceRefresh env ctx w) = None /\
  accessToken (auth (snd (ForceRefresh env ctx w))) = AccessToken tr /\
  (AccessToken tr = "" ->
   accessToken (auth (snd (ForceRefresh env ctx w))) = "") /\
  (forall ms,
     BodyJSON resp = Value (JObject ms) ->
     Forall (fun m => findField (fst m) <> Some FAccessToken) ms ->
     accessToken (auth (snd (ForceRefresh env ctx w))) = "").
Proof.
  intros Hr Hnew Hout Hs Hd. rewrite (ForceRefresh_refresh env ctx w Hr).
  rewrite (refresh_ok env ctx _ w Hr Hnew resp Hout Hs tr Hd).
  cbn [fst snd auth installed accessToken].
  split; [reflexivity|]. split; [reflexivity|]. split; [easy|].
  intros ms Hb Hms. rewrite Hb in Hd.
  exact (Decode_without_access_token ms tr Hms Hd).
Qed.

Lemma access_token_not_required_witness :
  fst (ForceRefresh emptyObjectEnv 0%nat refreshWorld) = None /\
  accessToken (auth (snd (ForceRefresh emptyObjectEnv 0%nat refreshWorld))) = "".
Proof.
  destruct (access_token_not_required emptyObjectEnv 0%nat refreshWorld
              emptyObjectResponse zeroTokenResponse) as (H1 & _ & _ & H4);
    [discriminate | reflexivity | reflexivity | reflexivity | reflexivity |].
  split; [exact H1|].
  apply (H4 []); [reflexivity | constructor].
Defined.

(** ** Refresh mode: a successful exchange *)

(** What a successful exchange installs, for a lifetime that fits a
    [Duration]: the new access token, the new refresh token if there is
    one, and the expiry counted from the clock at the time of the
    update. *)
Lemma refresh_success (env : Env) (ctx : Context) (w : World)
  (resp : Response) (tr : OAuth2TokenResponse) :
  refreshToken (auth w) <> "" ->
  newRequestError env (tokenURL (auth w)) = None ->
  outcome (exchange env ctx (refreshToken (auth w)) w) = DoResponse resp ->
  StatusCode resp = 200 ->
  Decode (BodyJSON resp) = inr tr ->
  let w' := snd (ForceRefresh env ctx w) in
  fst (ForceRefresh env ctx w) = None /\
  accessToken (auth w') = AccessToken tr /\
  refreshToken (auth w') =
    (if bool_decide (RefreshToken tr = "") then refreshToken (auth w)
     else RefreshToken tr) /\
  (0 < ExpiresIn tr <= 9223372036 ->
   expiresAt (auth w') = now w' + ExpiresIn tr * 1000000000) /\
  (ExpiresIn tr <= 0 -> expiresAt (auth w') = now w' + 7200000000000) /\
  fst (GetTokens w') =
    (AccessToken tr,
     if bool_decide (RefreshToken tr = "") then refreshToken (auth w)
     else RefreshToken tr).
Proof.
  intros Hr Hnew Hout Hs Hd. cbn zeta.
  rewrite (ForceRefresh_refresh env ctx w Hr).
  rewrite (refresh_ok env ctx _ w Hr Hnew resp Hout Hs tr Hd).
  cbn [fst snd auth now installed accessToken refreshToken expiresAt GetTokens].
  repeat split.
  - intros [Hpos Hfit]. apply Z.ltb_lt in Hpos as Hb. rewrite Hb.
    unfold time.Add. rewrite seconds_exact by lia. reflexivity.
  - intros Hnp. apply Z.ltb_ge in Hnp. rewrite Hnp. reflexivity.
Qed.

(** C1, at a lifetime that overflows. The exchange returns HTTP 200 with
    a body that decodes, with expires_in = 9223372037 > 0; the tokens are
    installed as the claim says, but [time.Duration(ExpiresIn) *
    time.Second] wraps around and expiresAt is set 9223372036.709551616
    seconds before now, not 9223372037 seconds after it: the fresh token
    is stale at once. *)
Theorem expiry_overflow :
  let w' := snd (ForceRefresh longLivedEnv 0%nat refreshWorld) in
  Decode (BodyJSON longLivedResponse)
    = inr (mkTokenResponse "new_access_token" "" "Bearer" 9223372037 "") /\
  fst (ForceRefresh longLivedEnv 0%nat refreshWorld) = None /\
  fst (GetTokens w') = ("new_access_token", "old_refresh") /\
  expiresAt (auth w') = now w' - 9223372036709551616 /\
  expiresAt (auth w') <> now w' + 9223372037 * 1000000000 /\
  expiresAt (auth w') < now w'.
Proof.
  cbn zeta. split; [reflexivity|]. split; [reflexivity|].
  split; [reflexivity|]. split; [reflexivity|].
  split; [vm_compute; discriminate | reflexivity].
Qed.

(** ** Refresh mode is never left *)

Lemma Add_keeps_refresh_mode (env : Env) (req : Request) (w : World) :
  refreshToken (auth w) <> "" ->
  refreshToken (auth (snd (Add env req w))) <> "".
Proof.
  intros Hr. rewrite (Add_refresh env req w Hr). cbn [snd].
  destruct (Z_lt_le_dec (now w + 300000000000) (expiresAt (auth w))) as [Hv|Hs].
  - now rewrite (getValidToken_valid env (reqCtx req) w Hv).
  - rewrite (getValidToken_stale env (reqCtx req) w Hs).
    now apply refresh_keeps_refresh_mode.
Qed.

Lemma ForceRefresh_keeps_refresh_mode (env : Env) (ctx : Context) (w : World) :
  refreshToken (auth w) <> "" ->
  refreshToken (auth (snd (ForceRefresh env ctx w))) <> "".
Proof.
  intros Hr. rewrite (ForceRefresh_refresh env ctx w Hr). cbn [snd].
  now apply refresh_keeps_refresh_mode.
Qed.

Lemma UpdateTokens_keeps_refresh_mode (a r : string) (w : World) :
  refreshToken (auth w) <> "" ->
  refreshToken (auth (snd (UpdateTokens a r w))) <> "".
Proof.
  intros Hr. unfold UpdateTokens, bind, modifyAuth, ret.
  do 2 case_bool_decide; cbn; congruence.
Qed.

Lemma runOp_keeps_refresh_mode (env : Env) (op : Op) (w : World) :
  refreshToken (auth w) <> "" ->
  refreshToken (auth (runOp env op w)) <> "".
Proof.
  intros Hr. destruct op; cbn [runOp].
  - now apply Add_keeps_refresh_mode.
  - now apply ForceRefresh_keeps_refresh_mode.
  - exact Hr.
  - now apply UpdateTokens_keeps_refresh_mode.
  - now apply refresh_keeps_refresh_mode.
  - exact Hr.
Qed.

(** C10. Refresh mode is never left: if the stored refresh token is
    non-empty, it is non-empty after every operation (Add, ForceRefresh,
    GetTokens, UpdateTokens, an exchange that succeeds or fails, the
    passing of time), and hence after every sequence of them. *)
Theorem refresh_mode_invariant (env : Env) (ops : list Op) (w : World) :
  refreshToken (auth w) <> "" ->
  refreshToken (auth (runOps env ops w)) <> "".
Proof.
  unfold runOps. revert w.
  induction ops as [|op ops IH]; intros w Hr; [exact Hr|].
  cbn [fold_left]. apply IH. now apply runOp_keeps_refresh_mode.
Qed.

Lemma refresh_mode_invariant_witness :
  refreshToken
    (auth (runOps emptyObjectEnv
             [OpAdd getRequest; OpUpdateTokens "manual" ""; OpClock 9000000000000;
              OpAdd getRequest; OpForceRefresh 0%nat; OpGetTokens;
              OpExchange 1%nat ""]
             refreshWorld)) <> "".
Proof.
  apply (refresh_mode_invariant emptyObjectEnv). discriminate.
Defined.

(** ** The tests of the repository, replayed *)

(** [TestAuthorizerV2_Add_BearerOnly]. *)
Example test_Add_BearerOnly :
  let o := NewAuthorizerV2 0 "test_token" "" "" "" None in
  let req := fst (Add silentEnv getRequest (mkWorld o 0 [] [])) in
  header.Get (reqHeader req) "Authorization" = "Bearer test_token".
Proof. reflexivity. Qed.

(** [TestAuthorizerV2_RefreshToken]: the mock server answers with a new
    pair and [expires_in] 7200; the callback is started with the pair. *)
Example test_RefreshToken :
  let o := NewAuthorizerV2 0 "old_access" "old_refresh" "client_id"
                "client_secret" (Some 7%nat) in
  let r := ForceRefresh rotatingEnv 0%nat (mkWorld o 0 [] []) in
  fst r = None /\
  fst (GetTokens (snd r)) = ("new_access_token", "new_refresh_token") /\
  started (snd r) = [(7%nat, "new_access_token", "new_refresh_token")] /\
  expiresAt (auth (snd r)) = now (snd r) + 7200 * 1000000000.
Proof. repeat split. Qed.

(** [TestAuthorizerV2_NoRefreshToken]. *)
Example test_NoRefreshToken :
  let o := NewAuthorizerV2 0 "access_token" "" "" "" None in
  exists err,
    fst (ForceRefresh silentEnv 0%nat (mkWorld o 0 [] [])) = Some err /\
    Contains err "no refresh token available" = true.
Proof. eexists. split; reflexivity. Qed.

(** ** What every operation keeps *)

Ltac refresh_cases env ctx rt w Hrt :=
  let c := fresh "c" in
  let resp := fresh "resp" in
  let tr := fresh "tr" in
  let Hnew := fresh "Hnew" in
  let Hout := fresh "Hout" in
  let Hok := fresh "Hok" in
  let Hbad := fresh "Hbad" in
  let Hd := fresh "Hd" in
  destruct (newRequestError env (tokenURL (auth w))) as [c|] eqn:Hnew;
  [ rewrite (refresh_create_fails env ctx rt w Hrt c Hnew)
  | destruct (outcome (exchange env ctx rt w)) as [c|resp] eqn:Hout;
    [ rewrite (refresh_do_fails env ctx rt w Hrt Hnew c Hout)
    | destruct (decide (StatusCode resp = StatusOK)) as [Hok|Hbad];
      [ destruct (Decode (BodyJSON resp)) as [c|tr] eqn:Hd;
        [ rewrite (refresh_bad_body env ctx rt w Hrt Hnew resp Hout Hok c Hd)
        | rewrite (refresh_ok env ctx rt w Hrt Hnew resp Hout Hok tr Hd) ]
      | rewrite (refresh_bad_status env ctx rt w Hrt Hnew resp Hout Hbad) ] ] ].

Lemma evolves_refl (w : World) : evolves 0 w w.
Proof.
  repeat split. exists [], []. rewrite !app_nil_r.
  repeat split; auto.
Qed.

Lemma evolves_weaken (n m : nat) (w w' : World) :
  (n <= m)%nat -> evolves n w w' -> evolves m w w'.
Proof.
  intros Hnm (H1 & H2 & H3 & H4 & l & k & Hs & Hf & Hl & Hk & Hkl & Hnone).
  repeat (split; [assumption|]). exists l, k.
  repeat split; try assumption. lia.
Qed.

Lemma refreshRequestOf_config (o o' : AuthorizerV2) (r : TokenRequest) :
  clientID o' = clientID o -> clientSecret o' = clientSecret o ->
  tokenURL o' = tokenURL o ->
  refreshRequestOf o' r -> refreshRequestOf o r.
Proof.
  unfold refreshRequestOf. intros -> -> ->. exact (fun H => H).
Qed.

Lemma evolves_trans (n m : nat) (w1 w2 w3 : World) :
  evolves n w1 w2 -> evolves m w2 w3 -> evolves (n + m) w1 w3.
Proof.
  intros (A1 & A2 & A3 & A4 & l & k & Hs & Hf & Hl & Hk & Hkl & Hnone)
         (B1 & B2 & B3 & B4 & l' & k' & Hs' & Hf' & Hl' & Hk' & Hkl' & Hnone').
  split; [congruence|]. split; [congruence|]. split; [congruence|].
  split; [congruence|].
  exists (l ++ l')%list, (k ++ k')%list.
  split; [rewrite Hs', Hs; apply eq_sym, app_assoc|].
  split.
  { apply Forall_app. split; [exact Hf|].
    eapply Forall_impl; [exact Hf'|].
    intros r. apply refreshRequestOf_config; assumption. }
  split; [rewrite length_app; lia|].
  split; [rewrite Hk', Hk; apply eq_sym, app_assoc|].
  split; [rewrite !length_app; lia|].
  intros Hc. rewrite (Hnone Hc), Hnone' by congruence. reflexivity.
Qed.

Lemma refreshRequest_shape (ctx : Context) (o : AuthorizerV2) (rt : string) :
  rt <> "" -> refreshRequestOf o (refreshRequest ctx o rt).
Proof.
  intros Hrt. repeat split. exists rt. split; [exact Hrt | reflexivity].
Qed.

Lemma refresh_evolves (env : Env) (ctx : Context) (rt : string) (w : World) :
  evolves 1 w (snd (refreshAccessToken env ctx rt w)).
Proof.
  destruct (decide (rt = "")) as [->|Hrt].
  { rewrite refresh_no_token. apply (evolves_weaken 0); [lia|apply evolves_refl]. }
  pose proof (refreshRequest_shape ctx (auth w) rt Hrt) as Hshape.
  assert (Hone : Forall (refreshRequestOf (auth w)) [refreshRequest ctx (auth w) rt])
    by (constructor; [exact Hshape | constructor]).
  refresh_cases env ctx rt w Hrt; cbn [snd].
  - apply (evolves_weaken 0); [lia|apply evolves_refl].
  - do 4 (split; [reflexivity|]).
    exists [refreshRequest ctx (auth w) rt], [].
    rewrite app_nil_r. repeat split; auto. cbn. lia.
  - do 4 (split; [reflexivity|]).
    exists [refreshRequest ctx (auth w) rt], [].
    rewrite app_nil_r. repeat split; auto. cbn. lia.
  - do 4 (split; [reflexivity|]).
    exists [refreshRequest ctx (auth w) rt]. cbn [started sent afterSend].
    destruct (callback (auth w)) as [cb|] eqn:Hcb.
    + eexists [_]. repeat split; auto. discriminate.
    + exists []. rewrite app_nil_r. repeat split; auto. cbn. lia.
  - do 4 (split; [reflexivity|]).
    exists [refreshRequest ctx (auth w) rt], [].
    rewrite app_nil_r. repeat split; auto. cbn. lia.
Qed.

(** The world [Add] leaves is the world it found or the world of one
    exchange. *)
Lemma Add_world (env : Env) (req : Request) (w : World) :
  snd (Add env req w) = w \/
  snd (Add env req w)
    = snd (refreshAccessToken env (reqCtx req) (refreshToken (auth w)) w).
Proof.
  destruct (decide (refreshToken (auth w) = "")) as [Hr|Hr].
  { left. now rewrite (Add_static env req w Hr). }
  rewrite (Add_refresh env req w Hr). cbn [snd].
  destruct (Z_lt_le_dec (now w + 300000000000) (expiresAt (auth w))) as [Hv|Hs].
  - left. now rewrite (getValidToken_valid env (reqCtx req) w Hv).
  - right. now rewrite (getValidToken_stale env (reqCtx req) w Hs).
Qed.

Lemma ForceRefresh_world (env : Env) (ctx : Context) (w : World) :
  snd (ForceRefresh env ctx w) = w \/
  snd (ForceRefresh env ctx w)
    = snd (refreshAccessToken env ctx (refreshToken (auth w)) w).
Proof.
  destruct (decide (refreshToken (auth w) = "")) as [Hr|Hr].
  - left. now rewrite (ForceRefresh_static env ctx w Hr).
  - right. now rewrite (ForceRefresh_refresh env ctx w Hr).
Qed.

Lemma UpdateTokens_evolves (a r : string) (w : World) :
  evolves 0 w (snd (UpdateTokens a r w)).
Proof.
  unfold UpdateTokens, bind, modifyAuth, ret.
  do 2 case_bool_decide; cbn; repeat split;
    exists [], []; rewrite !app_nil_r; repeat split; auto.
Qed.

Lemma runOp_evolves (env : Env) (op : Op) (w : World) :
  evolves 1 w (runOp env op w).
Proof.
  destruct op; cbn [runOp].
  - destruct (Add_world env req w) as [-> | ->].
    + apply (evolves_weaken 0); [lia|apply evolves_refl].
    + apply refresh_evolves.
  - destruct (ForceRefresh_world env ctx w) as [-> | ->].
    + apply (evolves_weaken 0); [lia|apply evolves_refl].
    + apply refresh_evolves.
  - apply (evolves_weaken 0); [lia|apply evolves_refl].
  - apply (evolves_weaken 0); [lia|apply UpdateTokens_evolves].
  - apply refresh_evolves.
  - apply (evolves_weaken 0); [lia|].
    repeat split. exists [], []. rewrite !app_nil_r. repeat split; auto.
Qed.

Lemma runOps_evolves (env : Env) (ops : list Op) (w : World) :
  evolves (length ops) w (runOps env ops w).
Proof.
  unfold runOps. revert w.
  induction ops as [|op ops IH]; intros w; [apply evolves_refl|].
  cbn [fold_left length].
  change (S (length ops)) with (1 + length ops)%nat.
  eapply evolves_trans; [apply runOp_evolves | apply IH].
Qed.

(** X1. Whatever operations run, the client id, the client secret, the
    token endpoint and the callback of a supplier stay what they were. *)
Theorem configuration_is_kept (env : Env) (ops : list Op) (w : World) :
  let w' := runOps env ops w in
  clientID (auth w') = clientID (auth w) /\
  clientSecret (auth w') = clientSecret (auth w) /\
  tokenURL (auth w') = tokenURL (auth w) /\
  callback (auth w') = callback (auth w).
Proof.
  destruct (runOps_evolves env ops w) as (H1 & H2 & H3 & H4 & _).
  cbn zeta. auto.
Qed.

(** X2. Whatever operations run, everything they hand to the transport
    is a refresh request of this supplier: a form-encoded POST to its
    token endpoint with its client credentials, grant type refresh_token
    and a refresh token that is not empty. *)
Theorem only_refresh_requests_are_sent (env : Env) (ops : list Op) (w : World) :
  exists l,
    sent (runOps env ops w) = (sent w ++ l)%list /\
    Forall (refreshRequestOf (auth w)) l.
Proof.
  destruct (runOps_evolves env ops w)
    as (_ & _ & _ & _ & l & k & Hs & Hf & _).
  exists l. auto.
Qed.

(** X3. No operation retries: a sequence of operations hands the
    transport at most one request per operation, after the requests
    already sent. *)
Theorem at_most_one_request_per_operation (env : Env) (ops : list Op) (w : World) :
  exists l,
    sent (runOps env ops w) = (sent w ++ l)%list /\
    (length l <= length ops)%nat.
Proof.
  destruct (runOps_evolves env ops w)
    as (_ & _ & _ & _ & l & k & Hs & _ & Hl & _).
  exists l. auto.
Qed.

(** X4. The callback goroutines a sequence of operations starts are at
    most as many as the requests it sends; a supplier without a callback
    starts none. *)
Theorem callbacks_follow_requests (env : Env) (ops : list Op) (w : World) :
  exists k,
    started (runOps env ops w) = (started w ++ k)%list /\
    (length k + length (sent w) <= length (sent (runOps env ops w)))%nat /\
    (callback (auth w) = None -> k = []).
Proof.
  destruct (runOps_evolves env ops w)
    as (_ & _ & _ & _ & l & k & Hs & _ & _ & Hk & Hkl & Hnone).
  exists k. split; [exact Hk|]. split; [|exact Hnone].
  rewrite Hs, length_app. lia.
Qed.

Lemma callbacks_follow_requests_witness :
  exists k,
    started (runOps rotatingEnv [OpForceRefresh 0%nat; OpAdd getRequest] refreshWorld)
      = (started refreshWorld ++ k)%list /\ k = [].
Proof.
  destruct (callbacks_follow_requests rotatingEnv
              [OpForceRefresh 0%nat; OpAdd getRequest] refreshWorld)
    as (k & Hk & _ & Hnone).
  exists k. split; [exact Hk | apply Hnone; reflexivity].
Defined.

(** X5. ForceRefresh starts the callback exactly when the exchange
    succeeded and a callback is configured, once, with the pair GetTokens
    returns afterwards; otherwise it starts nothing. *)
Theorem callback_gets_the_new_pair (env : Env) (ctx : Context) (w : World) :
  let r := ForceRefresh env ctx w in
  started (snd r) =
    (started w ++
     match fst r, callback (auth w) with
     | None, Some cb => [(cb, fst (fst (GetTokens (snd r))), snd (fst (GetTokens (snd r))))]
     | _, _ => []
     end)%list.
Proof.
  cbn zeta. destruct (decide (refreshToken (auth w) = "")) as [Hr|Hr].
  { rewrite (ForceRefresh_static env ctx w Hr). cbn. now rewrite app_nil_r. }
  rewrite (ForceRefresh_refresh env ctx w Hr).
  refresh_cases env ctx (refreshToken (auth w)) w Hr; cbn [fst snd];
    try (cbn; now rewrite app_nil_r).
  cbn. destruct (callback (auth w)); [reflexivity | now rewrite app_nil_r].
Qed.

(** ** Static mode, over time *)

Lemma static_step (env : Env) (op : Op) (w : World) :
  refreshToken (auth w) = "" ->
  suppliesRefreshToken op = false ->
  refreshToken (auth (runOp env op w)) = "" /\
  sent (runOp env op w) = sent w /\
  started (runOp env op w) = started w /\
  expiresAt (auth (runOp env op w)) = expiresAt (auth w).
Proof.
  intros Hr Hop. destruct op; cbn [runOp].
  - rewrite (Add_static env req w Hr). auto.
  - rewrite (ForceRefresh_static env ctx w Hr). auto.
  - auto.
  - cbn in Hop. apply negb_false_iff, bool_decide_eq_true in Hop. subst.
    unfold UpdateTokens, bind, modifyAuth, ret.
    rewrite (bool_decide_eq_false_2 ("" <> "")) by (intros N; now apply N).
    case_bool_decide; cbn; auto.
  - cbn in Hop. apply negb_false_iff, bool_decide_eq_true in Hop. subst.
    rewrite refresh_no_token. auto.
  - auto.
Qed.

(** X6. A supplier in static mode stays offline: as long as no operation
    hands it a refresh token, it stays in static mode, hands nothing to
    the transport, starts no goroutine and keeps its expiry, whatever is
    called and however the clock moves. *)
Theorem static_mode_stays_offline (env : Env) (ops : list Op) (w : World) :
  refreshToken (auth w) = "" ->
  forallb (fun op => negb (suppliesRefreshToken op)) ops = true ->
  refreshToken (auth (runOps env ops w)) = "" /\
  sent (runOps env ops w) = sent w /\
  started (runOps env ops w) = started w /\
  expiresAt (auth (runOps env ops w)) = expiresAt (auth w).
Proof.
  unfold runOps. revert w.
  induction ops as [|op ops IH]; intros w Hr Hops; [auto|].
  cbn [forallb] in Hops. apply andb_true_iff in Hops as [Hop Hops].
  apply negb_true_iff in Hop.
  destruct (static_step env op w Hr Hop) as (S1 & S2 & S3 & S4).
  cbn [fold_left].
  destruct (IH (runOp env op w) S1 Hops) as (T1 & T2 & T3 & T4).
  repeat split; congruence.
Qed.

Lemma static_mode_stays_offline_witness :
  sent (runOps rotatingEnv
          [OpAdd getRequest; OpClock 99000000000000; OpForceRefresh 0%nat;
           OpUpdateTokens "tok2" ""; OpAdd getRequest; OpGetTokens]
          staticWorld) = [].
Proof.
  apply (static_mode_stays_offline rotatingEnv
           [OpAdd getRequest; OpClock 99000000000000; OpForceRefresh 0%nat;
            OpUpdateTokens "tok2" ""; OpAdd getRequest; OpGetTokens]
           staticWorld); reflexivity.
Defined.

(** ** Expiry, over time *)

(** X7. A supplier constructed without a refresh token and later given
    one by UpdateTokens is in refresh mode without an endpoint: its token
    URL and client credentials are still the empty strings the
    constructor left, and its refresh request goes to the empty URL with
    empty credentials. *)
Theorem promoted_supplier_has_no_endpoint (t t' : time.Time)
  (a id secret a' r : string) (cb : option TokenRefreshCallback)
  (env : Env) (ctx : Context) :
  r <> "" ->
  newRequestError env "" = None ->
  let w := mkWorld (NewAuthorizerV2 t a "" id secret cb) t' [] [] in
  let w1 := snd (UpdateTokens a' r w) in
  refreshToken (auth w1) = r /\
  tokenURL (auth w1) = "" /\ clientID (auth w1) = "" /\ clientSecret (auth w1) = "" /\
  sent (snd (ForceRefresh env ctx w1)) =
    [mkTokenRequest ctx "POST" ""
       [("client_id", ""); ("grant_type", "refresh_token"); ("refresh_token", r)]
       "application/x-www-form-urlencoded" ("", "")].
Proof.
  intros Hr Hnew. cbn zeta.
  assert (Hw1 : refreshToken (auth (snd (UpdateTokens a' r
            (mkWorld (NewAuthorizerV2 t a "" id secret cb) t' [] [])))) = r
          /\ tokenURL (auth (snd (UpdateTokens a' r
            (mkWorld (NewAuthorizerV2 t a "" id secret cb) t' [] [])))) = ""
          /\ clientID (auth (snd (UpdateTokens a' r
            (mkWorld (NewAuthorizerV2 t a "" id secret cb) t' [] [])))) = ""
          /\ clientSecret (auth (snd (UpdateTokens a' r
            (mkWorld (NewAuthorizerV2 t a "" id secret cb) t' [] [])))) = ""
          /\ sent (snd (UpdateTokens a' r
            (mkWorld (NewAuthorizerV2 t a "" id secret cb) t' [] []))) = []).
  { unfold UpdateTokens, bind, modifyAuth, ret.
    rewrite (bool_decide_eq_true_2 (r <> "")) by exact Hr.
    case_bool_decide; cbn; auto. }
  destruct Hw1 as (W1 & W2 & W3 & W4 & W5).
  repeat (split; [assumption|]).
  assert (Hmode : refreshToken (auth (snd (UpdateTokens a' r
            (mkWorld (NewAuthorizerV2 t a "" id secret cb) t' [] [])))) <> "")
    by (rewrite W1; exact Hr).
  rewrite (ForceRefresh_refresh env ctx _ Hmode). cbn [snd].
  rewrite (sent_after_refresh env ctx _ _ Hmode).
  rewrite W2, Hnew, W5. unfold refreshRequest. rewrite W1, W2, W3, W4.
  reflexivity.
Qed.

Lemma promoted_supplier_has_no_endpoint_witness :
  sent (snd (ForceRefresh silentEnv 3%nat
               (snd (UpdateTokens "" "late_refresh" staticWorld)))) =
    [mkTokenRequest 3%nat "POST" ""
       [("client_id", ""); ("grant_type", "refresh_token");
        ("refresh_token", "late_refresh")]
       "application/x-www-form-urlencoded" ("", "")].
Proof.
  apply (promoted_supplier_has_no_endpoint 1000 2000 "tok" "" "" ""
           "late_refresh" None silentEnv 3%nat);
    [discriminate | reflexivity].
Defined.

(** X8. A lifetime of five minutes or less is no lifetime: after a
    successful exchange whose expires_in is between 1 and 300 seconds,
    the token is stale from the moment it is installed, and
    getValidToken at that or any later time runs the exchange again. *)
Theorem short_lived_token_is_stale (env : Env) (ctx : Context) (w : World)
  (resp : Response) (tr : OAuth2TokenResponse) :
  refreshToken (auth w) <> "" ->
  newRequestError env (tokenURL (auth w)) = None ->
  outcome (exchange env ctx (refreshToken (auth w)) w) = DoResponse resp ->
  StatusCode resp = 200 ->
  Decode (BodyJSON resp) = inr tr ->
  0 < ExpiresIn tr <= 300 ->
  let w' := snd (ForceRefresh env ctx w) in
  forall (t : time.Time) (ctx' : Context),
    now w' <= t ->
    getValidToken env ctx' (atClock t w')
      = refreshAccessToken env ctx' (refreshToken (auth w')) (atClock t w').
Proof.
  intros Hr Hnew Hout Hs Hd He. cbn zeta. intros t ctx' Ht.
  destruct (refresh_success env ctx w resp tr Hr Hnew Hout Hs Hd)
    as (_ & _ & _ & Hexp & _).
  rewrite getValidToken_stale; [reflexivity|].
  unfold atClock. cbn [auth now]. rewrite Hexp by lia. lia.
Qed.

Lemma short_lived_token_is_stale_witness :
  getValidToken fiveMinuteEnv 1%nat
    (atClock 2005 (snd (ForceRefresh fiveMinuteEnv 0%nat refreshWorld)))
  = refreshAccessToken fiveMinuteEnv 1%nat "old_refresh"
      (atClock 2005 (snd (ForceRefresh fiveMinuteEnv 0%nat refreshWorld))).
Proof.
  apply (short_lived_token_is_stale fiveMinuteEnv 0%nat refreshWorld
           fiveMinuteResponse
           (mkTokenResponse "five" "" "" 300 ""));
    try reflexivity; try discriminate.
  split; [reflexivity | discriminate].
Defined.

(** X9. A lifetime longer than five minutes is honoured up to the
    margin: after a successful exchange whose expires_in is between 301
    and 9223372036 seconds, an Add made while the clock is more than five
    minutes before the new expiry attaches the new access token and
    leaves the world as it is, without another exchange. *)
Theorem fresh_token_is_reused (env : Env) (ctx : Context) (w : World)
  (resp : Response) (tr : OAuth2TokenResponse) (req : Request) :
  refreshToken (auth w) <> "" ->
  newRequestError env (tokenURL (auth w)) = None ->
  outcome (exchange env ctx (refreshToken (auth w)) w) = DoResponse resp ->
  StatusCode resp = 200 ->
  Decode (BodyJSON resp) = inr tr ->
  300 < ExpiresIn tr <= 9223372036 ->
  let w' := snd (ForceRefresh env ctx w) in
  forall t : time.Time,
    t < now w' + (ExpiresIn tr - 300) * 1000000000 ->
    Add env req (atClock t w')
      = (addAuthorization (AccessToken tr) req, atClock t w').
Proof.
  intros Hr Hnew Hout Hs Hd He. cbn zeta. intros t Ht.
  destruct (refresh_success env ctx w resp tr Hr Hnew Hout Hs Hd)
    as (_ & Hacc & Href & Hexp & _).
  assert (Hmode : refreshToken (auth (atClock t (snd (ForceRefresh env ctx w)))) <> "").
  { unfold atClock. cbn [auth]. rewrite Href. now case_bool_decide. }
  rewrite (Add_refresh env req _ Hmode).
  rewrite getValidToken_valid.
  - unfold attached. cbn [fst snd]. unfold atClock at 1. cbn [auth].
    now rewrite Hacc.
  - unfold atClock. cbn [auth now]. rewrite Hexp by lia. lia.
Qed.

Lemma fresh_token_is_reused_witness :
  Add rotatingEnv getRequest
    (atClock 6000000000000 (snd (ForceRefresh rotatingEnv 0%nat refreshWorld)))
  = (addAuthorization "new_access_token" getRequest,
     atClock 6000000000000 (snd (ForceRefresh rotatingEnv 0%nat refreshWorld))).
Proof.
  apply (fresh_token_is_reused rotatingEnv 0%nat refreshWorld
           (mkResponse 200 "{...}"
              (Value (JObject [("access_token", JString "new_access_token");
                               ("refresh_token", JString "new_refresh_token");
                               ("token_type", JString "Bearer");
                               ("expires_in", JInt 7200)])))
           (mkTokenResponse "new_access_token" "new_refresh_token" "Bearer" 7200 "")
           getRequest);
    try reflexivity; try discriminate.
  split; [reflexivity | discriminate].
Defined.

(** X10. The first expiry is an estimate of two hours: a supplier
    constructed at time [t] with a refresh token attaches its initial
    access token, without any exchange, to every request made before
    [t] + 1 h 55 min, and from that moment on getValidToken runs the
    exchange. *)
Theorem initial_token_window (env : Env) (req : Request)
  (t t' : time.Time) (a r id secret : string)
  (cb : option TokenRefreshCallback)
  (log : list TokenRequest) (gs : list (TokenRefreshCallback * string * string)) :
  r <> "" ->
  let w := mkWorld (NewAuthorizerV2 t a r id secret cb) t' log gs in
  (t' < t + 6900 * 1000000000 ->
   Add env req w = (addAuthorization a req, w)) /\
  (t + 6900 * 1000000000 <= t' ->
   getValidToken env (reqCtx req) w = refreshAccessToken env (reqCtx req) r w).
Proof.
  intros Hr. cbn zeta.
  assert (Hnew : NewAuthorizerV2 t a r id secret cb =
                 mkAuthorizerV2 a r id secret defaultTokenURL cb (t + 7200000000000)).
  { unfold NewAuthorizerV2. now rewrite bool_decide_eq_false_2 by exact Hr. }
  rewrite Hnew. split; intros Ht.
  - rewrite Add_refresh by exact Hr.
    rewrite getValidToken_valid by (cbn; lia). reflexivity.
  - rewrite getValidToken_stale by (cbn; lia). reflexivity.
Qed.

Lemma initial_token_window_witness :
  Add silentEnv getRequest refreshWorld
    = (addAuthorization "old_access" getRequest, refreshWorld) /\
  getValidToken silentEnv 0%nat
      (mkWorld (NewAuthorizerV2 1000 "old_access" "old_refresh" "client_id"
                  "client_secret" None) 6900000001000 [] [])
    = refreshAccessToken silentEnv 0%nat "old_refresh"
        (mkWorld (NewAuthorizerV2 1000 "old_access" "old_refresh" "client_id"
                    "client_secret" None) 6900000001000 [] []).
Proof.
  split.
  - apply (initial_token_window silentEnv getRequest 1000 2000 "old_access"
             "old_refresh" "client_id" "client_secret" None [] []);
      [discriminate | reflexivity].
  - apply (initial_token_window silentEnv getRequest 1000 6900000001000
             "old_access" "old_refresh" "client_id" "client_secret" None [] []);
      [discriminate | discriminate].
Defined.

(** ** The other failures of the exchange *)

(** X11. ForceRefresh in refresh mode, when the request cannot be built,
    fails with "failed to create refresh request: <cause>" and leaves the
    whole world as it was, nothing being sent; when the transport fails,
    it fails with "failed to refresh token: <cause>", the request is in
    the transport log, and the supplier and the goroutines are as they
    were. *)
Theorem transport_failures (env : Env) (ctx : Context) (w : World) (c : string) :
  refreshToken (auth w) <> "" ->
  (newRequestError env (tokenURL (auth w)) = Some c ->
   ForceRefresh env ctx w = (Some ("failed to create refresh request: " +:+ c), w)) /\
  (newRequestError env (tokenURL (auth w)) = None ->
   outcome (exchange env ctx (refreshToken (auth w)) w) = DoError c ->
   fst (ForceRefresh env ctx w) = Some ("failed to refresh token: " +:+ c) /\
   auth (snd (ForceRefresh env ctx w)) = auth w /\
   started (snd (ForceRefresh env ctx w)) = started w /\
   sent (snd (ForceRefresh env ctx w)) =
     (sent w ++ [refreshRequest ctx (auth w) (refreshToken (auth w))])%list).
Proof.
  intros Hr. rewrite (ForceRefresh_refresh env ctx w Hr). split.
  - intros Hnew. now rewrite (refresh_create_fails env ctx _ w Hr c Hnew).
  - intros Hnew Hout.
    now rewrite (refresh_do_fails env ctx _ w Hr Hnew c Hout).
Qed.

Lemma transport_failures_witness :
  ForceRefresh (mkEnv (fun _ => Some "parse error") (Do silentEnv)) 0%nat refreshWorld
    = (Some "failed to create refresh request: parse error", refreshWorld) /\
  fst (ForceRefresh cancelledEnv 0%nat refreshWorld)
    = Some "failed to refresh token: context canceled".
Proof.
  split.
  - apply (transport_failures (mkEnv (fun _ => Some "parse error") (Do silentEnv))
             0%nat refreshWorld "parse error"); [discriminate | reflexivity].
  - apply (transport_failures cancelledEnv 0%nat refreshWorld "context canceled");
      [discriminate | reflexivity | reflexivity].
Defined.

(** ** UpdateTokens, composed *)

(** X12. UpdateTokens with two non-empty tokens followed by GetTokens
    returns exactly those two tokens. *)
Theorem UpdateTokens_GetTokens (a r : string) (w : World) :
  a <> "" -> r <> "" ->
  fst (GetTokens (snd (UpdateTokens a r w))) = (a, r).
Proof.
  intros Ha Hr. unfold UpdateTokens, GetTokens, bind, modifyAuth, getAuth, ret.
  rewrite !bool_decide_eq_true_2 by assumption. reflexivity.
Qed.

Lemma UpdateTokens_GetTokens_witness :
  fst (GetTokens (snd (UpdateTokens "a1" "r1" refreshWorld))) = ("a1", "r1").
Proof.
  apply (UpdateTokens_GetTokens "a1" "r1" refreshWorld); discriminate.
Defined.

(** X13. UpdateTokens cannot clear a token and is idempotent: with two
    empty arguments it leaves the world as it is, and applying it twice
    with the same arguments is applying it once. *)
Theorem UpdateTokens_idempotent (a r : string) (w : World) :
  snd (UpdateTokens "" "" w) = w /\
  snd (UpdateTokens a r (snd (UpdateTokens a r w))) = snd (UpdateTokens a r w).
Proof.
  destruct w as [[at0 rt0 id0 sec0 url0 cb0 exp0] t0 log gs].
  unfold UpdateTokens, bind, modifyAuth, ret. split.
  - reflexivity.
  - do 2 case_bool_decide; reflexivity.
Qed.

Lemma UpdateTokens_world (a r : string) (w : World) :
  snd (UpdateTokens a r w) =
    mkWorld
      (mkAuthorizerV2
         (if bool_decide (a = "") then accessToken (auth w) else a)
         (if bool_decide (r = "") then refreshToken (auth w) else r)
         (clientID (auth w)) (clientSecret (auth w)) (tokenURL (auth w))
         (callback (auth w)) (expiresAt (auth w)))
      (now w) (sent w) (started w).
Proof.
  destruct w as [[at0 rt0 id0 sec0 url0 cb0 exp0] t0 log gs].
  unfold UpdateTokens, bind, modifyAuth, ret.
  destruct (bool_decide_reflect (a = "")) as [Ha|Ha];
    destruct (bool_decide_reflect (r = "")) as [Hr|Hr].
  - rewrite !bool_decide_eq_false_2 by (intros N; contradiction). reflexivity.
  - rewrite bool_decide_eq_false_2 by (intros N; contradiction).
    rewrite bool_decide_eq_true_2 by exact Hr. reflexivity.
  - rewrite bool_decide_eq_true_2 by exact Ha.
    rewrite bool_decide_eq_false_2 by (intros N; contradiction). reflexivity.
  - rewrite !bool_decide_eq_true_2 by assumption. reflexivity.
Qed.

(** X14. A token set by hand is the token attached next: after
    UpdateTokens with a non-empty access token, an Add made in static
    mode, or in refresh mode while the stored expiry is more than five
    minutes away, attaches the new access token and contacts nobody. *)
Theorem updated_token_is_attached (env : Env) (req : Request)
  (a r : string) (w : World) :
  a <> "" ->
  (refreshToken (auth w) = "" /\ r = "") \/
  now w + 5 * (60 * 1000000000) < expiresAt (auth w) ->
  Add env req (snd (UpdateTokens a r w))
    = (addAuthorization a req, snd (UpdateTokens a r w)).
Proof.
  intros Ha Hcase. rewrite UpdateTokens_world.
  rewrite (bool_decide_eq_false_2 (a = "")) by exact Ha.
  destruct (decide ((if bool_decide (r = "") then refreshToken (auth w) else r) = ""))
    as [Hst|Hrf].
  - now rewrite Add_static by exact Hst.
  - destruct Hcase as [[H1 H2]|Hv].
    + exfalso. apply Hrf. rewrite H2. exact H1.
    + rewrite Add_refresh by exact Hrf.
      rewrite getValidToken_valid by exact Hv. reflexivity.
Qed.

Lemma updated_token_is_attached_witness :
  Add silentEnv getRequest (snd (UpdateTokens "by_hand" "" staticWorld))
    = (addAuthorization "by_hand" getRequest,
       snd (UpdateTokens "by_hand" "" staticWorld)) /\
  Add silentEnv getRequest (snd (UpdateTokens "by_hand" "r2" refreshWorld))
    = (addAuthorization "by_hand" getRequest,
       snd (UpdateTokens "by_hand" "r2" refreshWorld)).
Proof.
  split.
  - apply (updated_token_is_attached silentEnv getRequest "by_hand" "" staticWorld);
      [discriminate | left; split; reflexivity].
  - apply (updated_token_is_attached silentEnv getRequest "by_hand" "r2" refreshWorld);
      [discriminate | right; reflexivity].
Defined.

(** ** Add and the request *)

Lemma Add_attaches (env : Env) (req : Request) (w : World) :
  exists token, fst (Add env req w) = addAuthorization token req.
Proof.
  destruct (decide (refreshToken (auth w) = "")) as [Hr|Hr].
  - rewrite (Add_static env req w Hr). eexists. reflexivity.
  - rewrite (Add_refresh env req w Hr). eexists. reflexivity.
Qed.

(** X15. Add touches nothing of the request but the Authorization
    header: context, method and URL are kept, the values of every other
    header key are kept, and the Authorization values are the old ones
    followed by one bearer value. *)
Theorem Add_keeps_the_request (env : Env) (req : Request) (w : World) :
  let req' := fst (Add env req w) in
  reqCtx req' = reqCtx req /\ reqMethod req' = reqMethod req /\
  reqURL req' = reqURL req /\
  (forall key, key <> "Authorization" ->
     header.values (reqHeader req') key = header.values (reqHeader req) key) /\
  exists token,
    header.values (reqHeader req') "Authorization" =
      (header.values (reqHeader req) "Authorization" ++ ["Bearer " +:+ token])%list.
Proof.
  cbn zeta. destruct (Add_attaches env req w) as [token ->].
  cbn [addAuthorization reqCtx reqMethod reqURL reqHeader].
  repeat (split; [reflexivity|]). split.
  - intros key Hkey. unfold header.Add, header.values at 1.
    now rewrite lookup_insert_ne by congruence.
  - exists token. unfold header.Add, bearer, header.values at 1.
    now rewrite lookup_insert_eq.
Qed.

Lemma Add_keeps_the_request_witness :
  header.values
    (reqHeader (fst (Add silentEnv
       (mkRequest 0%nat "GET" "u" {["Accept" := ["application/json"]]})
       staticWorld))) "Accept" = ["application/json"].
Proof.
  destruct (Add_keeps_the_request silentEnv
              (mkRequest 0%nat "GET" "u" {["Accept" := ["application/json"]]})
              staticWorld) as (_ & _ & _ & H & _).
  rewrite (H "Accept"); [reflexivity | discriminate].
Defined.

(** X16. Add appends, it does not replace: what Header.Get returns for
    Authorization after Add is the bearer value only if the request had
    no Authorization value before; otherwise it is still the first of
    the old values. *)
Theorem Add_appends_to_Authorization (env : Env) (req : Request) (w : World) :
  exists token,
    fst (Add env req w) = addAuthorization token req /\
    header.Get (reqHeader (fst (Add env req w))) "Authorization" =
      match header.values (reqHeader req) "Authorization" with
      | [] => "Bearer " +:+ token
      | old :: _ => old
      end.
Proof.
  destruct (Add_attaches env req w) as [token Ht].
  exists token. split; [exact Ht|]. rewrite Ht.
  cbn [addAuthorization reqHeader]. unfold header.Get, header.Add, bearer.
  unfold header.values at 1. rewrite lookup_insert_eq. cbn [default].
  now destruct (header.values (reqHeader req) "Authorization").
Qed.

(** ** Refresh through Add, and token rotation *)

(** X17. Lazy refresh: when Add finds the token stale and the exchange
    succeeds, the request gets the new access token, not the stale one;
    exactly the one refresh request has been sent, carrying the request's
    own context; and GetTokens then returns the new pair. *)
Theorem lazy_refresh_attaches_new_token (env : Env) (req : Request) (w : World)
  (resp : Response) (tr : OAuth2TokenResponse) :
  refreshToken (auth w) <> "" ->
  expiresAt (auth w) <= now w + 5 * (60 * 1000000000) ->
  newRequestError env (tokenURL (auth w)) = None ->
  outcome (exchange env (reqCtx req) (refreshToken (auth w)) w) = DoResponse resp ->
  StatusCode resp = 200 ->
  Decode (BodyJSON resp) = inr tr ->
  let w' := snd (Add env req w) in
  fst (Add env req w) = addAuthorization (AccessToken tr) req /\
  sent w' = (sent w ++ [refreshRequest (reqCtx req) (auth w) (refreshToken (auth w))])%list /\
  fst (GetTokens w') =
    (AccessToken tr,
     if bool_decide (RefreshToken tr = "") then refreshToken (auth w)
     else RefreshToken tr).
Proof.
  intros Hr Hst Hnew Hout Hs Hd. cbn zeta.
  rewrite (Add_refresh env req w Hr).
  rewrite (getValidToken_stale env (reqCtx req) w Hst).
  rewrite (refresh_ok env (reqCtx req) _ w Hr Hnew resp Hout Hs tr Hd).
  repeat split.
Qed.

Lemma lazy_refresh_attaches_new_token_witness :
  fst (Add rotatingEnv getRequest staleWorld)
    = addAuthorization "new_access_token" getRequest /\
  fst (GetTokens (snd (Add rotatingEnv getRequest staleWorld)))
    = ("new_access_token", "new_refresh_token").
Proof.
  destruct (lazy_refresh_attaches_new_token rotatingEnv getRequest staleWorld
              (mkResponse 200 "{...}"
                 (Value (JObject [("access_token", JString "new_access_token");
                                  ("refresh_token", JString "new_refresh_token");
                                  ("token_type", JString "Bearer");
                                  ("expires_in", JInt 7200)])))
              (mkTokenResponse "new_access_token" "new_refresh_token" "Bearer" 7200 ""))
    as (H1 & _ & H3);
    try reflexivity; try discriminate.
  split; [exact H1 | exact H3].
Defined.

(** X18. Rotation is followed: after a successful exchange, the next
    exchange sends the refresh token the response supplied, or the old
    one if it supplied none, to the same endpoint with the same
    credentials. *)
Theorem rotated_token_is_sent_next (env : Env) (ctx ctx2 : Context) (w : World)
  (resp : Response) (tr : OAuth2TokenResponse) :
  refreshToken (auth w) <> "" ->
  newRequestError env (tokenURL (auth w)) = None ->
  outcome (exchange env ctx (refreshToken (auth w)) w) = DoResponse resp ->
  StatusCode resp = 200 ->
  Decode (BodyJSON resp) = inr tr ->
  let w' := snd (ForceRefresh env ctx w) in
  sent (snd (ForceRefresh env ctx2 w')) =
    (sent w' ++
     [mkTokenRequest ctx2 "POST" (tokenURL (auth w))
        [("client_id", clientID (auth w));
         ("grant_type", "refresh_token");
         ("refresh_token",
          if bool_decide (RefreshToken tr = "") then refreshToken (auth w)
          else RefreshToken tr)]
        "application/x-www-form-urlencoded"
        (clientID (auth w), clientSecret (auth w))])%list.
Proof.
  intros Hr Hnew Hout Hs Hd. cbn zeta.
  rewrite (ForceRefresh_refresh env ctx w Hr). cbn [snd].
  rewrite (refresh_ok env ctx _ w Hr Hnew resp Hout Hs tr Hd). cbn [snd].
  match goal with |- sent (snd (ForceRefresh env ctx2 ?W)) = _ => set (w' := W) end.
  assert (Hmode : refreshToken (auth w') <> "").
  { subst w'. cbn. now case_bool_decide. }
  rewrite (ForceRefresh_refresh env ctx2 w' Hmode). cbn [snd].
  rewrite (sent_after_refresh env ctx2 _ w' Hmode).
  subst w'. cbn [auth installed tokenURL sent]. rewrite Hnew. reflexivity.
Qed.

Lemma rotated_token_is_sent_next_witness :
  sent (snd (ForceRefresh rotatingEnv 2%nat
               (snd (ForceRefresh rotatingEnv 1%nat refreshWorld)))) =
    [refreshRequest 1%nat (auth refreshWorld) "old_refresh";
     mkTokenRequest 2%nat "POST" "https://api.twitter.com/2/oauth2/token"
       [("client_id", "client_id"); ("grant_type", "refresh_token");
        ("refresh_token", "new_refresh_token")]
       "application/x-www-form-urlencoded" ("client_id", "client_secret")].
Proof.
  apply (rotated_token_is_sent_next rotatingEnv 1%nat 2%nat refreshWorld
           (mkResponse 200 "{...}"
              (Value (JObject [("access_token", JString "new_access_token");
                               ("refresh_token", JString "new_refresh_token");
                               ("token_type", JString "Bearer");
                               ("expires_in", JInt 7200)])))
           (mkTokenResponse "new_access_token" "new_refresh_token" "Bearer" 7200 ""));
    try reflexivity; discriminate.
Defined.

(** ** Responses that leave members out *)

Lemma decodeField_null (f : field) (r : OAuth2TokenResponse) :
  decodeField f JNull r = (r, None).
Proof. reflexivity. Qed.

Lemma decodeMembers_keeps {A : Type} (g : OAuth2TokenResponse -> A) (f : field) :
  (forall f' j r, f' <> f -> g (fst (decodeField f' j r)) = g r) ->
  forall ms, silentOn f ms ->
  forall r err, g (fst (decodeMembers ms r err)) = g r.
Proof.
  intros Hg ms. induction 1 as [|[key j] ms Hm _ IH]; intros r err; [reflexivity|].
  cbn [decodeMembers]. cbn [fst snd] in Hm.
  destruct (findField key) as [f'|]; [|apply IH].
  assert (Hstep : g (fst (decodeField f' j r)) = g r).
  { destruct (decide (f' = f)) as [->|Hne].
    - rewrite (Hm eq_refl). reflexivity.
    - apply Hg, Hne. }
  destruct (decodeField f' j r) as [r' e]. cbn [fst] in Hstep.
  now rewrite IH.
Qed.

Lemma decodeField_keeps_RefreshToken (f' : field) (j : json)
  (r : OAuth2TokenResponse) :
  f' <> FRefreshToken ->
  RefreshToken (fst (decodeField f' j r)) = RefreshToken r.
Proof.
  intros Hf. destruct f'; try contradiction; destruct j; cbn; try reflexivity.
  destruct (inInt64 z); reflexivity.
Qed.

Lemma decodeField_keeps_ExpiresIn (f' : field) (j : json)
  (r : OAuth2TokenResponse) :
  f' <> FExpiresIn ->
  ExpiresIn (fst (decodeField f' j r)) = ExpiresIn r.
Proof.
  intros Hf. destruct f'; try contradiction; destruct j; reflexivity.
Qed.

(** X19. A response may leave members out: when a 200 response is an
    object that decodes and says nothing about refresh_token and
    expires_in (the members are absent or null), the exchange succeeds,
    the stored refresh token is kept, and the expiry is two hours after
    the time of the update. *)
Theorem minimal_response_defaults (env : Env) (ctx : Context) (w : World)
  (resp : Response) (ms : list (string * json)) (tr : OAuth2TokenResponse) :
  refreshToken (auth w) <> "" ->
  newRequestError env (tokenURL (auth w)) = None ->
  outcome (exchange env ctx (refreshToken (auth w)) w) = DoResponse resp ->
  StatusCode resp = 200 ->
  BodyJSON resp = Value (JObject ms) ->
  Decode (BodyJSON resp) = inr tr ->
  silentOn FRefreshToken ms -> silentOn FExpiresIn ms ->
  let w' := snd (ForceRefresh env ctx w) in
  fst (ForceRefresh env ctx w) = None /\
  refreshToken (auth w') = refreshToken (auth w) /\
  expiresAt (auth w') = now w' + 2 * (60 * (60 * 1000000000)).
Proof.
  intros Hr Hnew Hout Hs Hb Hd Hrt He. cbn zeta.
  assert (Htr : RefreshToken tr = "" /\ ExpiresIn tr = 0).
  { rewrite Hb in Hd. cbn [Decode] in Hd.
    pose proof (decodeMembers_keeps RefreshToken FRefreshToken
                  decodeField_keeps_RefreshToken ms Hrt zeroTokenResponse None) as H1.
    pose proof (decodeMembers_keeps ExpiresIn FExpiresIn
                  decodeField_keeps_ExpiresIn ms He zeroTokenResponse None) as H2.
    destruct (decodeMembers ms zeroTokenResponse None) as [r0 [e|]];
      [discriminate|].
    injection Hd as <-. split; [exact H1 | exact H2]. }
  destruct Htr as [T1 T2].
  destruct (refresh_success env ctx w resp tr Hr Hnew Hout Hs Hd)
    as (S1 & _ & S3 & _ & S5 & _).
  split; [exact S1|]. split.
  - rewrite S3, T1. reflexivity.
  - rewrite S5 by lia. reflexivity.
Qed.

Lemma minimal_response_defaults_witness :
  let w' := snd (ForceRefresh
                   (mkEnv (fun _ => None)
                      (fun _ _ t => mkReply (DoResponse
                         (mkResponse 200 "{...}"
                            (Value (JObject [("access_token", JString "only");
                                             ("refresh_token", JNull)]))))
                         (t + 5)))
                   0%nat refreshWorld) in
  refreshToken (auth w') = "old_refresh" /\
  expiresAt (auth w') = now w' + 2 * (60 * (60 * 1000000000)).
Proof.
  cbn zeta.
  apply (minimal_response_defaults
           (mkEnv (fun _ => None)
              (fun _ _ t => mkReply (DoResponse
                 (mkResponse 200 "{...}"
                    (Value (JObject [("access_token", JString "only");
                                     ("refresh_token", JNull)]))))
                 (t + 5)))
           0%nat refreshWorld
           (mkResponse 200 "{...}"
              (Value (JObject [("access_token", JString "only");
                               ("refresh_token", JNull)])))
           [("access_token", JString "only"); ("refresh_token", JNull)]
           (mkTokenResponse "only" "" "" 0 ""));
    try reflexivity; try discriminate.
  - repeat constructor; cbn; try discriminate; reflexivity.
  - repeat constructor; cbn; discriminate.
Defined.

(** * scopes.go *)

(** ** Strings *)

Lemma append_assoc (a b c : string) : (a +:+ b) +:+ c = a +:+ (b +:+ c).
Proof.
  induction a as [|x a IH]; [reflexivity|].
  change (String x ((a +:+ b) +:+ c) = String x (a +:+ (b +:+ c))).
  now rewrite IH.
Qed.

Lemma append_cons (x : ascii) (a b : string) :
  String x a +:+ b = String x (a +:+ b).
Proof. reflexivity. Qed.

Lemma append_empty_l (s : string) : "" +:+ s = s.
Proof. reflexivity. Qed.

Lemma length_dropBytes (n : nat) (s : string) :
  String.length (dropBytes n s) = (String.length s - n)%nat.
Proof.
  revert s. induction n as [|n IH]; intros [|c s]; cbn; auto.
Qed.

Lemma spaceFree_app (a b : string) :
  spaceFree (a +:+ b) = spaceFree a && spaceFree b.
Proof.
  induction a as [|x a IH]; [reflexivity|].
  rewrite append_cons. cbn [spaceFree]. rewrite IH. apply andb_assoc.
Qed.

Lemma isASCII_app (a b : string) :
  isASCII (a +:+ b) = isASCII a && isASCII b.
Proof.
  induction a as [|x a IH]; [reflexivity|].
  rewrite append_cons. cbn [isASCII]. rewrite IH. apply andb_assoc.
Qed.

(** ** One rune *)

Lemma space_code : nat_of_ascii space = 32%nat.
Proof. reflexivity. Qed.

Lemma inRange_not_space (lo hi : nat) (c : ascii) :
  (33 <= lo)%nat -> inRange lo hi c = true -> bool_decide (c = space) = false.
Proof.
  intros Hlo H. apply bool_decide_eq_false_2. intros ->.
  unfold inRange in H. rewrite space_code in H.
  apply andb_true_iff in H as [H _]. apply Nat.leb_le in H. lia.
Qed.

Lemma high_not_space (c : ascii) :
  (nat_of_ascii c <? 128)%nat = false -> bool_decide (c = space) = false.
Proof.
  intros H. apply bool_decide_eq_false_2. intros ->.
  rewrite space_code in H. discriminate.
Qed.

Lemma isCont_not_space (c : ascii) :
  isCont c = true -> bool_decide (c = space) = false.
Proof. apply (inRange_not_space 128 191). lia. Qed.

Lemma nextRune_ascii (b : ascii) (r : string) :
  (nat_of_ascii b <? 128)%nat = true ->
  nextRune (String b r) = (String b "", bool_decide (b = space), r).
Proof.
  intros Hb. unfold nextRune, runeWidth. rewrite Hb. reflexivity.
Qed.

Lemma nextRune_shorter (s : string) :
  s <> "" ->
  (String.length (snd (nextRune s)) < String.length s)%nat.
Proof.
  destruct s as [|b r]; [congruence|]. intros _.
  unfold nextRune. destruct (runeWidth (String b r)) as [|n] eqn:E.
  - cbn. lia.
  - cbn [snd]. rewrite length_dropBytes. cbn. lia.
Qed.

Lemma nextRune_nonempty (s : string) :
  s <> "" -> fst (fst (nextRune s)) <> "".
Proof.
  destruct s as [|b r]; [congruence|]. intros _.
  unfold nextRune. destruct (runeWidth (String b r)) as [|n] eqn:E.
  - discriminate.
  - discriminate.
Qed.

Lemma isCont_inRange (c : ascii) : isCont c = inRange 128 191 c.
Proof. reflexivity. Qed.

(** The second byte of a well-formed sequence is never a space, whatever
    the range its first byte asks for. *)
Lemma second_not_space (b0 b1 : ascii) (x y : nat) (lo1 hi1 lo2 hi2 : nat) :
  (33 <= lo1)%nat -> (33 <= lo2)%nat ->
  (if (nat_of_ascii b0 =? x)%nat then inRange lo1 hi1 b1
   else if (nat_of_ascii b0 =? y)%nat then inRange lo2 hi2 b1
   else isCont b1) = true ->
  bool_decide (b1 = space) = false.
Proof.
  intros H1 H2.
  destruct (nat_of_ascii b0 =? x)%nat;
    [apply inRange_not_space; exact H1|].
  destruct (nat_of_ascii b0 =? y)%nat;
    [apply inRange_not_space; exact H2|].
  apply isCont_not_space.
Qed.

Lemma rune_spaceFree (b : ascii) (r : string) :
  bool_decide (b = space) = false ->
  spaceFree (takeBytes (runeWidth (String b r)) (String b r)) = true.
Proof.
  intros Hb. unfold runeWidth.
  destruct (nat_of_ascii b <? 128)%nat; [cbn; now rewrite Hb|].
  destruct (inRange 194 223 b).
  { destruct r as [|b1 r1]; [reflexivity|].
    destruct (isCont b1) eqn:E1; [|reflexivity].
    cbn. now rewrite Hb, (isCont_not_space b1 E1). }
  destruct (inRange 224 239 b).
  { destruct r as [|b1 [|b2 r2]]; try reflexivity.
    match goal with |- context [if ?c then 3%nat else 0%nat] => destruct c eqn:E end;
      [|reflexivity].
    apply andb_true_iff in E as [E1 E2].
    apply (second_not_space b b1 224 237 160 191 128 159) in E1; [|lia|lia].
    cbn. now rewrite Hb, E1, (isCont_not_space b2 E2). }
  destruct (inRange 240 244 b); [|reflexivity].
  destruct r as [|b1 [|b2 [|b3 r3]]]; try reflexivity.
  match goal with |- context [if ?c then 4%nat else 0%nat] => destruct c eqn:E end;
    [|reflexivity].
  apply andb_true_iff in E as [E E3]. apply andb_true_iff in E as [E1 E2].
  apply (second_not_space b b1 240 244 144 191 128 143) in E1; [|lia|lia].
  cbn. now rewrite Hb, E1, (isCont_not_space b2 E2), (isCont_not_space b3 E3).
Qed.

(** What [range] yields for a rune other than a space has no space in
    it. *)
Lemma nextRune_spaceFree (s : string) :
  snd (fst (nextRune s)) = false ->
  spaceFree (fst (fst (nextRune s))) = true.
Proof.
  destruct s as [|b r]; [reflexivity|].
  unfold nextRune. destruct (runeWidth (String b r)) as [|n] eqn:E.
  - reflexivity.
  - cbn [fst snd]. intros Hb. rewrite <- E. now apply rune_spaceFree.
Qed.

(** A rune that is a space is the byte 20 alone. *)
Lemma nextRune_space (s : string) :
  snd (fst (nextRune s)) = true ->
  exists r, s = String space r /\ snd (nextRune s) = r.
Proof.
  destruct s as [|b r]; [discriminate|].
  unfold nextRune. destruct (runeWidth (String b r)) as [|n] eqn:E;
    [discriminate|].
  cbn [fst snd]. intros Hb. apply bool_decide_eq_true in Hb. subst b.
  exists r. split; [reflexivity|].
  unfold runeWidth in E. cbn in E. injection E as <-. reflexivity.
Qed.

(** ** The loop of SplitScopes *)

Lemma SplitScopes_loop_step (fuel : nat) (b : ascii) (r : string)
  (scopes : list string) (current : string) :
  SplitScopes_loop (S fuel) (String b r) scopes current =
    let s := String b r in
    if snd (fst (nextRune s)) then
      if bool_decide (current <> "")
      then SplitScopes_loop fuel (snd (nextRune s)) (scopes ++ [current])%list ""
      else SplitScopes_loop fuel (snd (nextRune s)) scopes current
    else SplitScopes_loop fuel (snd (nextRune s)) scopes
           (current +:+ fst (fst (nextRune s))).
Proof.
  cbn [SplitScopes_loop]. cbn zeta.
  destruct (nextRune (String b r)) as [[char isSpace] rest]. reflexivity.
Qed.

(** The length of the string is fuel enough: more fuel changes nothing. *)
Lemma SplitScopes_loop_fuel (fuel fuel' : nat) (s : string)
  (scopes : list string) (current : string) :
  (String.length s <= fuel)%nat -> (String.length s <= fuel')%nat ->
  SplitScopes_loop fuel s scopes current = SplitScopes_loop fuel' s scopes current.
Proof.
  revert fuel' s scopes current.
  induction fuel as [|fuel IH]; intros fuel' s scopes current H1 H2.
  - destruct s; [|cbn in H1; lia]. destruct fuel'; reflexivity.
  - destruct s as [|b r]; [destruct fuel'; reflexivity|].
    destruct fuel' as [|fuel']; [cbn in H2; lia|].
    rewrite !SplitScopes_loop_step. cbn zeta.
    pose proof (nextRune_shorter (String b r) ltac:(discriminate)) as Hlt.
    cbn [String.length] in H1, H2, Hlt.
    destruct (snd (fst (nextRune (String b r)))).
    + case_bool_decide; apply IH; lia.
    + apply IH; lia.
Qed.

Lemma splitRun_empty (scopes : list string) (current : string) :
  splitRun "" scopes current = (scopes, current).
Proof. reflexivity. Qed.

Lemma splitRun_step (b : ascii) (r : string) (scopes : list string)
  (current : string) :
  splitRun (String b r) scopes current =
    let s := String b r in
    if snd (fst (nextRune s)) then
      if bool_decide (current <> "")
      then splitRun (snd (nextRune s)) (scopes ++ [current])%list ""
      else splitRun (snd (nextRune s)) scopes current
    else splitRun (snd (nextRune s)) scopes (current +:+ fst (fst (nextRune s))).
Proof.
  unfold splitRun. cbn [String.length]. rewrite SplitScopes_loop_step. cbn zeta.
  pose proof (nextRune_shorter (String b r) ltac:(discriminate)) as Hlt.
  cbn [String.length] in Hlt.
  destruct (snd (fst (nextRune (String b r)))).
  - case_bool_decide; apply SplitScopes_loop_fuel; lia.
  - apply SplitScopes_loop_fuel; lia.
Qed.

Lemma SplitScopes_run (s : string) :
  SplitScopes s = flushScopes (splitRun s [] "").
Proof.
  unfold SplitScopes, flushScopes, splitRun. case_bool_decide as Hs.
  - subst s. reflexivity.
  - destruct (SplitScopes_loop (String.length s) s [] "") as [scopes current].
    reflexivity.
Qed.

Lemma string_length_ind (P : string -> Prop) :
  (forall s, (forall s', (String.length s' < String.length s)%nat -> P s') -> P s) ->
  forall s, P s.
Proof.
  intros H s.
  assert (G : forall n s, (String.length s < n)%nat -> P s).
  { induction n as [|n IH]; intros s0 Hs0; [lia|].
    apply H. intros s' Hs'. apply IH. lia. }
  apply (G (S (String.length s))). lia.
Qed.

Lemma splitRun_clean (s : string) :
  forall (scopes : list string) (current : string),
    Forall (fun x => x <> "" /\ spaceFree x = true) scopes ->
    spaceFree current = true ->
    Forall (fun x => x <> "" /\ spaceFree x = true) (fst (splitRun s scopes current)) /\
    spaceFree (snd (splitRun s scopes current)) = true.
Proof.
  induction s as [s IH] using string_length_ind.
  intros scopes current Hsc Hcur.
  destruct s as [|b r]; [now rewrite splitRun_empty|].
  rewrite splitRun_step. cbn zeta.
  pose proof (nextRune_shorter (String b r) ltac:(discriminate)) as Hlt.
  destruct (snd (fst (nextRune (String b r)))) eqn:Hsp.
  - case_bool_decide as Hne.
    + apply IH; [exact Hlt| |reflexivity].
      apply Forall_app. split; [exact Hsc|]. constructor; [|constructor]. auto.
    + apply IH; assumption.
  - apply IH; [exact Hlt|exact Hsc|].
    rewrite spaceFree_app, Hcur. now apply nextRune_spaceFree.
Qed.

Lemma SplitScopes_scopes_are_clean_aux (scopeString : string) :
  Forall (fun scope => scope <> "" /\ spaceFree scope = true)
    (SplitScopes scopeString).
Proof.
  rewrite SplitScopes_run. unfold flushScopes.
  destruct (splitRun_clean scopeString [] "" ltac:(constructor) eq_refl)
    as [Hsc Hcur].
  case_bool_decide as Hne; [|exact Hsc].
  apply Forall_app. split; [exact Hsc|]. constructor; [|constructor]. auto.
Qed.

(** X20. SplitScopes never returns an empty scope, nor a scope with a
    space in it, whatever string it is given. *)
Theorem SplitScopes_scopes_are_clean (scopeString : string) :
  Forall (fun scope => scope <> "" /\ spaceFree scope = true)
    (SplitScopes scopeString).
Proof.
  rewrite SplitScopes_run. unfold flushScopes.
  destruct (splitRun_clean scopeString [] "" ltac:(constructor) eq_refl)
    as [Hsc Hcur].
  case_bool_decide as Hne; [|exact Hsc].
  apply Forall_app. split; [exact Hsc|]. constructor; [|constructor]. auto.
Qed.

(** X21. HasScope never finds the empty scope, nor a target with a space
    in it: a target that is not one whole scope does not match. *)
Theorem HasScope_needs_a_whole_scope (scopeString targetScope : string) :
  targetScope = "" \/ spaceFree targetScope = false ->
  HasScope scopeString targetScope = false.
Proof.
  intros Ht. unfold HasScope.
  pose proof (SplitScopes_scopes_are_clean_aux scopeString) as Hclean.
  induction Hclean as [|x l [Hx1 Hx2] _ IH]; [reflexivity|].
  cbn [existsb]. rewrite IH, orb_false_r.
  apply bool_decide_eq_false_2. intros ->.
  destruct Ht as [Ht|Ht]; [contradiction | congruence].
Qed.

Lemma HasScope_needs_a_whole_scope_witness :
  HasScope "tweet.read users.read" "" = false /\
  HasScope "tweet.read users.read" "tweet.read users.read" = false.
Proof.
  split.
  - apply (HasScope_needs_a_whole_scope "tweet.read users.read" "").
    left. reflexivity.
  - apply (HasScope_needs_a_whole_scope "tweet.read users.read"
             "tweet.read users.read").
    right. reflexivity.
Defined.

(** ** ASCII scope strings *)

Lemma splitRun_char (b : ascii) (r : string) (scopes : list string)
  (current : string) :
  (nat_of_ascii b <? 128)%nat = true ->
  bool_decide (b = space) = false ->
  splitRun (String b r) scopes current
    = splitRun r scopes (current +:+ String b "").
Proof.
  intros Hb Hsp. rewrite splitRun_step. cbn zeta.
  rewrite (nextRune_ascii b r Hb). cbn [fst snd]. now rewrite Hsp.
Qed.

Lemma splitRun_space (r : string) (scopes : list string) (current : string) :
  splitRun (String space r) scopes current =
    if bool_decide (current <> "")
    then splitRun r (scopes ++ [current])%list ""
    else splitRun r scopes current.
Proof.
  rewrite splitRun_step. cbn zeta.
  rewrite (nextRune_ascii space r eq_refl). cbn [fst snd].
  now rewrite bool_decide_eq_true_2 by reflexivity.
Qed.

(** A scope token at the head of the string goes to [current] whole. *)
Lemma splitRun_token (x r : string) (scopes : list string) (current : string) :
  isASCII x = true -> spaceFree x = true ->
  splitRun (x +:+ r) scopes current = splitRun r scopes (current +:+ x).
Proof.
  revert current. induction x as [|b x IH]; intros current Ha Hs.
  - now rewrite append_empty_l, append_empty_r.
  - cbn [isASCII spaceFree] in Ha, Hs.
    apply andb_true_iff in Ha as [Hb Ha].
    apply andb_true_iff in Hs as [Hsp Hs].
    apply negb_true_iff in Hsp.
    rewrite append_cons, (splitRun_char b _ scopes current Hb Hsp).
    rewrite IH by assumption.
    now rewrite append_assoc.
Qed.

Lemma ScopeString_loop_join (i : nat) (result : string) (scopes : list string) :
  ScopeString_loop (S i) result scopes =
    match scopes with
    | [] => result
    | _ => result +:+ " " +:+ joinScopes scopes
    end.
Proof.
  revert i result. induction scopes as [|x l IH]; intros i result; [reflexivity|].
  cbn [ScopeString_loop]. rewrite IH. cbn [Nat.ltb Nat.leb].
  destruct l as [|y l]; [now rewrite append_assoc|].
  cbn [joinScopes]. now rewrite !append_assoc.
Qed.

Lemma ScopeString_join (scopes : list string) :
  ScopeString scopes = joinScopes scopes.
Proof.
  destruct scopes as [|x l]; [reflexivity|].
  unfold ScopeString. cbn [ScopeString_loop Nat.ltb Nat.leb].
  rewrite ScopeString_loop_join, append_empty_l.
  destruct l; reflexivity.
Qed.

Lemma joinScopes_cons (x y : string) (l : list string) :
  joinScopes (x :: y :: l) = x +:+ String space (joinScopes (y :: l)).
Proof. reflexivity. Qed.

Lemma splitRun_join (l : list string) :
  Forall scopeToken l ->
  forall scopes,
    flushScopes (splitRun (joinScopes l) scopes "") = (scopes ++ l)%list.
Proof.
  induction 1 as [|x l (Hne & Ha & Hs) Hl IH]; intros scopes.
  - cbn. now rewrite app_nil_r.
  - destruct l as [|y l].
    + cbn [joinScopes]. rewrite <- (append_empty_r x) at 1.
      rewrite (splitRun_token x "" scopes "" Ha Hs), splitRun_empty.
      rewrite append_empty_l. unfold flushScopes. cbn [fst snd].
      now rewrite bool_decide_eq_true_2 by exact Hne.
    + rewrite joinScopes_cons, (splitRun_token x _ scopes "" Ha Hs).
      rewrite append_empty_l.
      rewrite splitRun_space, bool_decide_eq_true_2 by exact Hne.
      rewrite IH. now rewrite <- app_assoc.
Qed.

Lemma SplitScopes_ScopeString_aux (scopes : list string) :
  Forall scopeToken scopes ->
  SplitScopes (ScopeString scopes) = scopes.
Proof.
  intros H. rewrite SplitScopes_run, ScopeString_join.
  exact (splitRun_join scopes H []).
Qed.

(** X22. Round trip: joining scopes with ScopeString and splitting the
    result with SplitScopes gives the scopes back, provided each is a
    scope token (not empty, ASCII, without a space). *)
Theorem SplitScopes_ScopeString (scopes : list string) :
  Forall scopeToken scopes ->
  SplitScopes (ScopeString scopes) = scopes.
Proof.
  intros H. rewrite SplitScopes_run, ScopeString_join.
  rewrite (splitRun_join scopes H []). reflexivity.
Qed.

Lemma AllScopes_are_tokens : Forall scopeToken AllScopes.
Proof. repeat constructor; discriminate. Qed.

Lemma SplitScopes_ScopeString_witness :
  SplitScopes (ScopeString AllScopes) = AllScopes.
Proof.
  apply (SplitScopes_ScopeString AllScopes). repeat constructor; discriminate.
Defined.

(** X23. HasScope on a joined scope string is membership: for scope
    tokens, HasScope (ScopeString scopes) target holds exactly when
    target is one of the scopes. *)
Theorem HasScope_ScopeString (scopes : list string) (targetScope : string) :
  Forall scopeToken scopes ->
  HasScope (ScopeString scopes) targetScope = true <-> In targetScope scopes.
Proof.
  intros H. unfold HasScope. rewrite (SplitScopes_ScopeString_aux scopes H).
  rewrite existsb_exists. split.
  - intros (x & Hx & Heq). apply bool_decide_eq_true in Heq. now subst.
  - intros Hin. exists targetScope. split; [exact Hin|].
    now apply bool_decide_eq_true_2.
Qed.

Lemma HasScope_ScopeString_witness :
  HasScope (ScopeString [ScopeTweetRead; ScopeUsersRead]) "users.read" = true /\
  ~ HasScope (ScopeString [ScopeTweetRead; ScopeUsersRead]) "tweet" = true.
Proof.
  split.
  - apply (HasScope_ScopeString [ScopeTweetRead; ScopeUsersRead] "users.read").
    + repeat constructor; discriminate.
    + right. left. reflexivity.
  - intros H.
    apply (HasScope_ScopeString [ScopeTweetRead; ScopeUsersRead] "tweet") in H.
    + destruct H as [H|[H|[]]]; discriminate.
    + repeat constructor; discriminate.
Defined.

(** ** Blank scope strings *)

Lemma splitRun_blank (s : string) (scopes : list string) :
  blank s = true -> splitRun s scopes "" = (scopes, "").
Proof.
  induction s as [|b r IH]; intros Hb; [reflexivity|].
  cbn [blank] in Hb. apply andb_true_iff in Hb as [Hsp Hr].
  apply bool_decide_eq_true in Hsp. subst b.
  rewrite splitRun_space.
  rewrite bool_decide_eq_false_2 by (intros N; now apply N).
  now apply IH.
Qed.

(** Once there is a scope or a scope under way, there is one at the
    end. *)
Lemma splitRun_keeps (s : string) :
  forall (scopes : list string) (current : string),
    scopes <> [] \/ current <> "" ->
    flushScopes (splitRun s scopes current) <> [].
Proof.
  induction s as [s IH] using string_length_ind.
  intros scopes current Hne.
  destruct s as [|b r].
  - rewrite splitRun_empty. unfold flushScopes. cbn [fst snd].
    case_bool_decide as Hc.
    + intros N. now apply app_eq_nil in N as [_ N].
    + destruct Hne as [Hne|Hne]; [exact Hne | contradiction].
  - rewrite splitRun_step. cbn zeta.
    pose proof (nextRune_shorter (String b r) ltac:(discriminate)) as Hlt.
    destruct (snd (fst (nextRune (String b r)))).
    + case_bool_decide as Hc.
      * apply IH; [exact Hlt|]. left. intros N.
        now apply app_eq_nil in N as [_ N].
      * apply IH; [exact Hlt|]. destruct Hne as [Hne|Hne]; [now left | contradiction].
    + apply IH; [exact Hlt|]. right.
      pose proof (nextRune_nonempty (String b r) ltac:(discriminate)) as Hch.
      destruct current; [exact Hch | discriminate].
Qed.

Lemma splitRun_not_blank (s : string) :
  forall scopes : list string,
    blank s = false -> flushScopes (splitRun s scopes "") <> [].
Proof.
  induction s as [|b r IH]; intros scopes Hb; [discriminate|].
  cbn [blank] in Hb.
  destruct (bool_decide_reflect (b = space)) as [->|Hsp].
  - cbn [andb] in Hb. rewrite splitRun_space.
    rewrite bool_decide_eq_false_2 by (intros N; now apply N).
    now apply IH.
  - rewrite splitRun_step. cbn zeta.
    destruct (snd (fst (nextRune (String b r)))) eqn:E.
    + apply nextRune_space in E as (r' & Heq & _). congruence.
    + apply splitRun_keeps. right.
      exact (nextRune_nonempty (String b r) ltac:(discriminate)).
Qed.

(** X24. SplitScopes returns no scope exactly for the strings made of
    spaces only, the empty string among them. *)
Theorem SplitScopes_empty_iff_blank (scopeString : string) :
  SplitScopes scopeString = [] <-> blank scopeString = true.
Proof.
  rewrite SplitScopes_run. split.
  - intros H. destruct (blank scopeString) eqn:Hb; [reflexivity|].
    exfalso. exact (splitRun_not_blank scopeString [] Hb H).
  - intros Hb. now rewrite (splitRun_blank scopeString [] Hb).
Qed.

(** ** ValidateScopes *)

Lemma validScopes_lookup (l : list string) (m : gmap string bool) (x : string) :
  fold_left (fun m scope => <[scope := true]> m) l m !! x =
    if bool_decide (x ∈ l) then Some true else m !! x.
Proof.
  revert m. induction l as [|y l IH]; intros m; [reflexivity|].
  cbn [fold_left]. rewrite IH.
  destruct (bool_decide_reflect (x ∈ l)) as [Hin|Hin].
  - rewrite bool_decide_eq_true_2 by (right; exact Hin). reflexivity.
  - destruct (decide (y = x)) as [->|Hne].
    + rewrite bool_decide_eq_true_2 by left.
      now rewrite lookup_insert_eq.
    + rewrite bool_decide_eq_false_2
        by (intros N; apply elem_of_cons in N as [N|N]; [congruence|contradiction]).
      now rewrite lookup_insert_ne.
Qed.

Lemma fold_left_filter_app {A : Type} (p : A -> bool) (l acc : list A) :
  fold_left (fun invalid x => if p x then (invalid ++ [x])%list else invalid) l acc
    = (acc ++ List.filter p l)%list.
Proof.
  revert acc. induction l as [|x l IH]; intros acc; cbn [fold_left List.filter].
  - now rewrite app_nil_r.
  - rewrite IH. destruct (p x); [|reflexivity].
    now rewrite <- app_assoc.
Qed.

(** [ValidateScopes] keeps, in order, the scopes that are not among
    [AllScopes]. *)
Lemma ValidateScopes_filter (scopes : list string) :
  ValidateScopes scopes =
    List.filter (fun scope => negb (bool_decide (scope ∈ AllScopes))) scopes.
Proof.
  unfold ValidateScopes. rewrite fold_left_filter_app. cbn [app].
  apply List.filter_ext. intros x. rewrite validScopes_lookup.
  case_bool_decide; reflexivity.
Qed.

(** X25. ValidateScopes returns no scope exactly when every scope given
    is one of AllScopes; and a scope is returned exactly when it was
    given and is not one of AllScopes. *)
Theorem ValidateScopes_sound_and_complete (scopes : list string) :
  (ValidateScopes scopes = [] <-> Forall (fun scope => scope ∈ AllScopes) scopes) /\
  (forall scope,
     scope ∈ ValidateScopes scopes <-> scope ∈ scopes /\ scope ∉ AllScopes).
Proof.
  rewrite ValidateScopes_filter. split.
  - induction scopes as [|x l IH]; cbn [List.filter].
    + split; [constructor | reflexivity].
    + destruct (bool_decide_reflect (x ∈ AllScopes)) as [Hin|Hin]; cbn [negb].
      * rewrite IH. split; [now constructor | now inversion 1].
      * split; [discriminate | inversion 1; contradiction].
  - intros scope. rewrite (list_elem_of_In (List.filter _ _)), List.filter_In.
    rewrite <- list_elem_of_In, negb_true_iff.
    split; intros [H1 H2]; (split; [exact H1|]).
    + now apply bool_decide_eq_false in H2.
    + now apply bool_decide_eq_false_2.
Qed.

(** X26. ValidateScopes works scope by scope, in order: the invalid
    scopes of a concatenation are those of its parts, one after the
    other, duplicates included; and validating its own result changes
    nothing. *)
Theorem ValidateScopes_app_idempotent (l1 l2 : list string) :
  ValidateScopes (l1 ++ l2) = (ValidateScopes l1 ++ ValidateScopes l2)%list /\
  ValidateScopes (ValidateScopes l1) = ValidateScopes l1.
Proof.
  rewrite !ValidateScopes_filter. split.
  - apply List.filter_app.
  - induction l1 as [|x l IH]; [reflexivity|]. cbn [List.filter].
    destruct (negb (bool_decide (x ∈ AllScopes))) eqn:E; [|exact IH].
    cbn [List.filter]. now rewrite E, IH.
Qed.

(** ** Normal form of an ASCII scope string *)

Lemma splitRun_ascii (s : string) :
  isASCII s = true ->
  forall (scopes : list string) (current : string),
    Forall (fun x => isASCII x = true) scopes -> isASCII current = true ->
    Forall (fun x => isASCII x = true) (fst (splitRun s scopes current)) /\
    isASCII (snd (splitRun s scopes current)) = true.
Proof.
  induction s as [|b r IH]; intros Hs scopes current Hsc Hcur;
    [now rewrite splitRun_empty|].
  cbn [isASCII] in Hs. apply andb_true_iff in Hs as [Hb Hr].
  rewrite splitRun_step. cbn zeta. rewrite (nextRune_ascii b r Hb). cbn [fst snd].
  destruct (bool_decide (b = space)).
  - case_bool_decide.
    + apply IH; [exact Hr| |reflexivity].
      apply Forall_app. split; [exact Hsc|]. now constructor.
    + now apply IH.
  - apply IH; [exact Hr|exact Hsc|].
    rewrite isASCII_app, Hcur.
    change (isASCII (String b "")) with ((nat_of_ascii b <? 128)%nat && true).
    now rewrite Hb.
Qed.

Lemma SplitScopes_tokens (s : string) :
  isASCII s = true -> Forall scopeToken (SplitScopes s).
Proof.
  intros Hs.
  pose proof (SplitScopes_scopes_are_clean_aux s) as Hclean.
  assert (Hascii : Forall (fun x => isASCII x = true) (SplitScopes s)).
  { rewrite SplitScopes_run. unfold flushScopes.
    destruct (splitRun_ascii s Hs [] "" ltac:(constructor) eq_refl) as [H1 H2].
    case_bool_decide; [|exact H1].
    apply Forall_app. split; [exact H1|]. now constructor. }
  induction Hclean as [|x l [Hx1 Hx2] _ IH]; [constructor|].
  inversion Hascii as [|? ? Ha Hl]; subst.
  constructor; [|now apply IH]. repeat split; assumption.
Qed.

(** X27. Splitting normalises: for an ASCII scope string, however its
    scopes are spaced, joining what SplitScopes returns and splitting
    again returns the same scopes. *)
Theorem SplitScopes_normalises (scopeString : string) :
  isASCII scopeString = true ->
  SplitScopes (ScopeString (SplitScopes scopeString)) = SplitScopes scopeString.
Proof.
  intros Hs. apply SplitScopes_ScopeString_aux. now apply SplitScopes_tokens.
Qed.

Lemma SplitScopes_normalises_witness :
  SplitScopes (ScopeString (SplitScopes "  tweet.read   users.read  "))
    = SplitScopes "  tweet.read   users.read  ".
Proof.
  apply (SplitScopes_normalises "  tweet.read   users.read  "). reflexivity.
Defined.

(** ** The tests of scopes.go, replayed *)

Example test_ScopeString :
  ScopeString [ScopeTweetRead] = "tweet.read" /\
  ScopeString [ScopeTweetRead; ScopeUsersRead; ScopeFollowsRead]
    = "tweet.read users.read follows.read" /\
  ScopeString [] = "".
Proof. repeat split. Qed.

Example test_SplitScopes :
  SplitScopes "tweet.read" = ["tweet.read"] /\
  SplitScopes "tweet.read users.read follows.read"
    = ["tweet.read"; "users.read"; "follows.read"] /\
  SplitScopes "" = [] /\
  SplitScopes "  tweet.read   users.read  " = ["tweet.read"; "users.read"].
Proof. repeat split. Qed.

Example test_HasScope :
  HasScope "tweet.read users.read follows.read" "tweet.read" = true /\
  HasScope "tweet.read users.read follows.read" "tweet.write" = false /\
  HasScope "tweet.read users.read follows.read" "tweet" = false.
Proof. repeat split. Qed.

Example test_ValidateScopes :
  ValidateScopes [ScopeTweetRead; ScopeUsersRead] = [] /\
  ValidateScopes [ScopeTweetRead; "invalid.scope"; "another.invalid"]
    = ["invalid.scope"; "another.invalid"] /\
  ValidateScopes ["invalid.scope"; "another.invalid"]
    = ["invalid.scope"; "another.invalid"] /\
  ValidateScopes [] = [].
Proof. repeat split; vm_compute; reflexivity. Qed.

(** ** Bytes that are not UTF-8 *)

(** X28. SplitScopes does not always return pieces of its input: a
    string that is one byte above 7F, which is no well-formed UTF-8, is
    returned as the one scope EF BF BD, the encoding of U+FFFD. *)
Theorem SplitScopes_replaces_stray_byte (b : ascii) :
  (128 <= nat_of_ascii b)%nat ->
  SplitScopes (String b "") = [runeError].
Proof.
  intros Hb.
  assert (Hhigh : (nat_of_ascii b <? 128)%nat = false) by (apply Nat.ltb_ge; lia).
  assert (Hw : runeWidth (String b "") = 0%nat).
  { unfold runeWidth. rewrite Hhigh.
    destruct (inRange 194 223 b); [reflexivity|].
    destruct (inRange 224 239 b); [reflexivity|].
    destruct (inRange 240 244 b); reflexivity. }
  rewrite SplitScopes_run, splitRun_step. cbn zeta.
  unfold nextRune. rewrite Hw. reflexivity.
Qed.

Lemma SplitScopes_replaces_stray_byte_witness :
  SplitScopes (String (ascii_of_nat 255) "") = [runeError].
Proof.
  apply (SplitScopes_replaces_stray_byte (ascii_of_nat 255)).
  apply Nat.leb_le. reflexivity.
Defined.
